(** * node-mongodb-s3-backup: the backup pipeline of [index.js]

    The program dumps a MongoDB database with [mongodump], compresses the dump
    with [tar], uploads the archive to S3 and removes its scratch files.  It is
    written in continuation-passing style over Node's asynchronous API.

    The embedding keeps that shape.  A JavaScript function taking a callback
    becomes a Rocq function taking a continuation and returning a [Proc], a
    finite tree of the actions the program asks of Node (file-system checks,
    child processes, the S3 client, the logger, the error domain).  [run]
    interprets such a tree against an environment that decides what the
    outside world answers, and records every action in a trace.

    What is taken for granted about the outside world, and what is left out:
    - every operation the program waits for answers once: [fs.exists] and
      [exec] call back, a spawned child emits ['exit'].  A child that cannot
      be started emits ['error'] instead, to which [index.js] does not
      listen: the process then dies at once, and such runs are left out;
    - the chunks of a child's output are those delivered to the listeners
      before its ['exit'] event; chunks that Node delivers later are left
      out;
    - the command line of [exec] is built by concatenation and goes to the
      shell unquoted.  A successful [rm -rf target] removes [target] and what
      lies below it when [target] is one plain word for the shell
      ([shell_word]); what any other command line does to the files, and
      what a failed command leaves of them, is up to the environment;
    - the multipart upload calls back once, or an error is thrown
      asynchronously from within it, either instead of the callback or once
      the work the callback started is over; [knox.createClient] returns a
      client;
    - the domain has the listener of the job that runs, and no other:
      [index.js] creates one domain for the module and every call of [sync]
      adds a listener to it, so this is the first job of a process;
    - [async.series], [path.join], [os.tmpDir] and [new Date()] are the
      libraries' own: the first is written out below, the others are
      parameters. *)

From stdpp Require Import base tactics option list strings pretty gmap.

Open Scope string_scope.
Open Scope list_scope.

Set Warnings "-register-all".

(** ** Values *)

(** A JavaScript [Error]; only its message is observable here. *)
Record Error := MkError { message : string }.

Global Instance Error_eq_dec : EqDecision Error.
Proof. solve_decision. Defined.

(** [String(err)], as the logger renders an error object. *)
Definition error_to_string (e : Error) : string := "Error: " +:+ message e.

(** The [code] argument of a child's ['exit'] event: a number, or [null] when
    the child was killed by a signal. *)
Definition ExitCode := option Z.

(** [code === 0] *)
Definition is_zero (code : ExitCode) : bool :=
  match code with Some 0%Z => true | _ => false end.

(** ["..." + code] *)
Definition code_to_string (code : ExitCode) : string :=
  match code with Some n => pretty n | None => "null" end.

(** Truthiness of an optional string property: [undefined] and [""] are
    falsy. *)
Definition truthy (v : option string) : bool :=
  match v with
  | None | Some "" => false
  | Some _ => true
  end.

(** [v || d] on optional strings. *)
Definition or_else (v : option string) (d : string) : string :=
  match v with
  | None | Some "" => d
  | Some s => s
  end.

(** The [options] object of [mongoDump]. *)
Record MongoConfig := {
  host : string;
  port : Z;
  db : string;
  username : option string;
  password : option string;
  authenticationDatabase : option string;
  excludeCollection : option (list string)
}.

(** The [options] object of [sendToS3]: the knox options [key], [secret],
    [bucket], and the two properties the program itself reads. *)
Record S3Options := {
  key : string;
  secret : string;
  bucket : string;
  destination : option string;
  encrypt : bool
}.

Global Instance S3Options_eq_dec : EqDecision S3Options.
Proof. solve_decision. Defined.

Global Instance S3Options_inhabited : Inhabited S3Options :=
  populate {| key := ""; secret := ""; bucket := ""; destination := None; encrypt := false |}.

(** [delete options.destination] *)
Definition delete_destination (o : S3Options) : S3Options :=
  {| key := key o; secret := secret o; bucket := bucket o;
     destination := None; encrypt := encrypt o |}.

(** Objects live in a store and are passed by reference. *)
Definition loc := positive.

(** The argument of [new MultiPartUpload(...)]. *)
Record UploadRequest := {
  client : S3Options;
  objectName : string;
  headers : list (string * string);
  file : string;
  partSize : Z;
  maxRetries : Z
}.

(** What [new Date()] returns, through the four getters the program calls. *)
Record Date := {
  getFullYear : Z;
  getMonth : Z;
  getDate : Z;
  getTime : Z
}.

(** ** Actions and traces *)

Inductive Stream := Stdout | Stderr.

(** What can be observed of a run: a line handed to the logger; the answer of
    [fs.exists]; a shell command and the error [exec] reported for it; a child
    spawned, and its exit; a request handed to the multipart upload, and the
    error it called back with; an error thrown asynchronously from within the
    upload; a call of the job's callback; an exception nothing caught; an
    exception the domain's listener threw while the domain was still entered,
    which goes to that listener again. *)
Inductive Event :=
| EvLog (tag line : string)
| EvExists (target : string) (found : bool)
| EvExec (command : string) (error : option Error)
| EvSpawn (command : string) (args : list string) (cwd : option string)
| EvExit (command : string) (code : ExitCode)
| EvUpload (req : UploadRequest)
| EvUploadDone (err : option Error)
| EvFault (fault : Error)
| EvCallback (err : option Error)
| EvThrow (err : Error)
| EvRecaught (err : Error).

(** What the program asks of Node, and how it goes on with the answer.
    [Resolve] stands for the job's callback seen from outside, [Stop] for a
    callback that does nothing; the handlers of [Spawn] are the ['data']
    listeners of the child's output streams, its continuation the ['exit']
    listener; [GetOptions] reads an object of the store, as
    [knox.createClient] does when it copies the options;
    [DomainOn], [DomainBind] and [DomainExit] are [d.on('error', ...)],
    [d.bind] and [d.exit()] of the one domain [d]. *)
Inductive Proc :=
| Stop
| Resolve (err : option Error)
| Throw (err : Error)
| UtilLog (tag line : string) (k : Proc)
| FsExists (target : string) (k : bool → Proc)
| Exec (command : string) (k : option Error → Proc)
| Spawn (command : string) (args : list string) (cwd : option string)
        (on_stdout on_stderr : option (string → Proc)) (k : ExitCode → Proc)
| GetOptions (o : loc) (k : S3Options → Proc)
| DeleteDestination (o : loc) (k : Proc)
| MultiPartUpload (req : UploadRequest) (k : option Error → string → Proc)
| DomainOn (handler : Error → Proc) (k : Proc)
| DomainBind (k : Proc)
| DomainExit (k : Proc).

(** A callback of the [callback(err)] convention, and a function that takes
    such a callback as its last argument. *)
Definition Callback := option Error → Proc.
Definition Task := Callback → Proc.

(** ** The functions of [index.js] *)

Definition LF : Ascii.ascii := Ascii.ascii_of_nat 10.
Definition CR : Ascii.ascii := Ascii.ascii_of_nat 13.

(** [.replace(/(\n|\r|\r\n)$/, '')]: one line terminator at the very end of
    the string is dropped. *)
Fixpoint strip_eol (s : string) : string :=
  match s with
  | "" => ""
  | String c "" => if bool_decide (c = LF ∨ c = CR) then "" else s
  | String c1 (String c2 "" as rest) =>
      if bool_decide (c1 = CR ∧ c2 = LF) then "" else String c1 (strip_eol rest)
  | String c rest => String c (strip_eol rest)
  end.

(** [log(message, tag)].  The colour a tag is printed in is left to
    [cli-color]; the tag and the line are recorded. *)
Definition log (message : string) (tag : option string) (k : Proc) : Proc :=
  let tag := or_else tag "info" in
  UtilLog tag (strip_eol ("[" +:+ tag +:+ "] " +:+ message)) k.

(** [datestring.join('_') + '.tar.gz'] *)
Definition getArchiveName (date : Date) (databaseName : string) : string :=
  let datestring :=
    [ databaseName;
      pretty (getFullYear date);
      pretty (getMonth date + 1)%Z;
      pretty (getDate date);
      pretty (getTime date) ] in
  String.concat "_" datestring +:+ ".tar.gz".

(** [callback = callback || function() { }] *)
Definition or_noop (callback : option Callback) : Callback :=
  match callback with
  | Some f => f
  | None => λ _, Stop
  end.

Definition removeRF (target : string) (callback : option Callback) : Proc :=
  let callback := or_noop callback in
  FsExists target (λ exists_,
    if negb exists_ then callback None
    else log ("Removing " +:+ target) (Some "info")
           (Exec ("rm -rf " +:+ target) callback)).

(** The argument array [mongoOptions] that [mongoDump] hands to [spawn]. *)
Definition mongoOptions (options : MongoConfig) (directory : string) : list string :=
  let mongoOptions :=
    [ "-h"; host options +:+ ":" +:+ pretty (port options);
      "-d"; db options;
      "-o"; directory ] in
  let mongoOptions :=
    if truthy (username options) && truthy (password options)
    then mongoOptions ++ ["-u"; or_else (username options) ""]
                      ++ ["-p"; or_else (password options) ""]
    else mongoOptions in
  let mongoOptions :=
    if truthy (authenticationDatabase options)
    then mongoOptions ++ ["--authenticationDatabase";
                          or_else (authenticationDatabase options) ""]
    else mongoOptions in
  match excludeCollection options with
  | Some collections =>
      fold_left (λ mongoOptions collection,
                   mongoOptions ++ ["--excludeCollection"; collection])
                collections mongoOptions
  | None => mongoOptions
  end.

Definition mongoDump (options : MongoConfig) (directory : string)
    (callback : option Callback) : Proc :=
  let callback := or_noop callback in
  log ("Starting mongodump of " +:+ db options) (Some "info")
    (Spawn "mongodump" (mongoOptions options directory) None
       (Some (λ data, log data None Stop))
       (Some (λ data, log data (Some "error") Stop))
       (λ code,
          if is_zero code then
            log "mongodump executed successfully" (Some "info") (callback None)
          else
            callback (Some (MkError ("Mongodump exited with code " +:+ code_to_string code))))).

Definition compressDirectory (directory input output : string)
    (callback : option Callback) : Proc :=
  let callback := or_noop callback in
  let tarOptions := ["-zcf"; output; input] in
  log ("Starting compression of " +:+ input +:+ " into " +:+ output) (Some "info")
    (Spawn "tar" tarOptions (Some directory)
       None
       (Some (λ data, log data (Some "error") Stop))
       (λ code,
          if is_zero code then
            log "successfully compress directory" (Some "info") (callback None)
          else
            callback (Some (MkError ("Tar exited with code " +:+ code_to_string code))))).

(** [async.series(tasks, callback)] of the [async] library: the tasks run one
    after the other, and the first error ends the series. *)
Fixpoint series (tasks : list Task) (callback : Callback) : Proc :=
  match tasks with
  | [] => callback None
  | task :: tasks =>
      task (λ err,
        match err with
        | Some e => callback (Some e)
        | None => series tasks callback
        end)
  end.

(** [d.bind(fn)]: the function runs with the domain [d] entered. *)
Definition d_bind (fn : Task) : Task := λ callback, DomainBind (fn callback).

Section Node.

(** [path.join] and [os.tmpDir()] belong to Node. *)
Variable path_join : string → string → string.
Variable os_tmpDir : string.

Definition sendToS3 (options : loc) (directory target : string)
    (callback : option Callback) : Proc :=
  let sourceFile := path_join directory target in
  GetOptions options (λ o,
    let destination := or_else (destination o) "/" in
    let headers := [] in
    let callback := or_noop callback in
    DeleteDestination options (
      GetOptions options (λ s3client,
        let headers :=
          if encrypt s3client then [("x-amz-server-side-encryption", "AES256")]
          else headers in
        log ("Attemping to upload " +:+ target +:+ " to the "
               +:+ bucket s3client +:+ " s3 bucket") None
          (MultiPartUpload
             {| client := s3client;
                objectName := path_join destination target;
                headers := headers;
                file := sourceFile;
                partSize := 10485760;
                maxRetries := 2 |}
             (λ err body,
                match err with
                | Some e => callback (Some e)
                | None =>
                    log "Successfully uploaded to s3" None
                      (log body None (callback None))
                end))))).

Definition tmpDir : string := path_join os_tmpDir "mongodb_s3_backup".
Definition backupDir (mongodbConfig : MongoConfig) : string :=
  path_join tmpDir (db mongodbConfig).
Definition archivePath (archiveName : string) : string :=
  path_join tmpDir archiveName.

Definition tmpDirCleanupFns (mongodbConfig : MongoConfig) (archiveName : string)
    : list Task :=
  [ λ cb, removeRF (backupDir mongodbConfig) (Some cb);
    λ cb, removeRF (archivePath archiveName) (Some cb) ].

(** The listener [sync] installs with [d.on('error', ...)]. *)
Definition onDomainError (mongodbConfig : MongoConfig) (archiveName : string)
    (err : Error) : Proc :=
  DomainExit
    (series (tmpDirCleanupFns mongodbConfig archiveName) (λ _, Throw err)).

(** [sync].  The first task of the series only starts an asynchronous
    [fs.exists] and returns, so [d.on] has installed the listener before any
    callback of the series runs: the listener comes first here. *)
Definition sync (date : Date) (mongodbConfig : MongoConfig) (s3Config : loc)
    (callback : option Callback) : Proc :=
  let archiveName := getArchiveName date (db mongodbConfig) in
  let callback := or_noop callback in
  let tmpDirCleanupFns := tmpDirCleanupFns mongodbConfig archiveName in
  DomainOn (onDomainError mongodbConfig archiveName)
    (series
       (tmpDirCleanupFns ++
        [ λ cb, mongoDump mongodbConfig tmpDir (Some cb);
          λ cb, compressDirectory tmpDir (db mongodbConfig) archiveName (Some cb);
          d_bind (λ cb, sendToS3 s3Config tmpDir archiveName (Some cb)) ])
       (λ err,
          (match err with
           | Some e => log (error_to_string e) (Some "error")
           | None => log ("Successfully backed up " +:+ db mongodbConfig) None
           end)
            (series tmpDirCleanupFns (λ _, callback err)))).

End Node.

(** ** The world the program runs in *)

(** The files and directories that exist, the objects of the store, and the
    actions performed so far, oldest first. *)
Record World := {
  fs : gset string;
  heap : gmap loc S3Options;
  trace : list Event
}.

(** What a spawned child does: the chunks of its output that reach the
    listeners before its ['exit'] event, the paths it creates, and the code it
    exits with. *)
Record SpawnResult := {
  output : list (Stream * string);
  created : list string;
  exit_code : ExitCode
}.

(** What the multipart upload does: it calls back once; or an error is thrown
    asynchronously in its context and it never calls back; or it calls back
    and an error is thrown later, once the callback's work is over. *)
Inductive UploadOutcome :=
| Responded (err : option Error) (body : string)
| Faulted (fault : Error)
| RespondedThenFaulted (err : option Error) (body : string) (fault : Error).

(** The outside world.  Each answer may depend on everything that happened
    before, so any sequence of outcomes is some environment.  [shell_outcome]
    gives the files a command line leaves when the model does not work that
    out itself. *)
Record Env := {
  exec_outcome : list Event → string → option Error;
  shell_outcome : list Event → string → gset string → gset string;
  spawn_outcome : list Event → string → list string → option string → SpawnResult;
  upload_outcome : list Event → UploadRequest → UploadOutcome
}.

Definition emit (e : Event) (w : World) : World :=
  {| fs := fs w; heap := heap w; trace := trace w ++ [e] |}.

Definition set_fs (f : gset string) (w : World) : World :=
  {| fs := f; heap := heap w; trace := trace w |}.

Definition set_heap (h : gmap loc S3Options) (w : World) : World :=
  {| fs := fs w; heap := h; trace := trace w |}.

(** [strip_prefix p s] is [Some r] when [s] is [p] followed by [r]. *)
Fixpoint strip_prefix (p s : string) : option string :=
  match p, s with
  | "", _ => Some s
  | String a p, String b s => if bool_decide (a = b) then strip_prefix p s else None
  | String _ _, "" => None
  end.

(** A path is under [target] when it is [target] or lies below it. *)
Definition under (target path : string) : bool :=
  bool_decide (path = target) || String.prefix (target +:+ "/") path.

(** A successful [rm -rf target], for a path the shell reads as one word. *)
Definition rm_rf (target : string) (f : gset string) : gset string :=
  filter (λ path, under target path = false) f.

(** The character [c] occurs in [s]. *)
Fixpoint occurs (c : Ascii.ascii) (s : string) : bool :=
  match s with
  | "" => false
  | String a s => bool_decide (a = c) || occurs c s
  end.

(** Every character of [s] is one of [allowed]. *)
Fixpoint all_in (allowed s : string) : bool :=
  match s with
  | "" => true
  | String c s => occurs c allowed && all_in allowed s
  end.

(** A path that the shell hands to [rm] as it is, as one operand: it is not
    empty, does not start with a dash, and is made of letters, digits and the
    characters [/ . _ - + , : @ % =] only.  So it has no space, quote, glob
    or other character the shell gives a meaning to. *)
Definition shell_word (path : string) : bool :=
  match path with
  | "" => false
  | String c _ =>
      negb (occurs c "-") &&
      all_in "abcdefghijklmnopqrstuvwxyzABCDEFGHIJKLMNOPQRSTUVWXYZ0123456789/._-+,:@%="
        path
  end.

(** The files a command line leaves, [exec] having reported [error] for it,
    after the events [t].  Only a successful [rm -rf] of one plain word is
    worked out here: ['rm -rf ' + target] is handed to the shell unquoted,
    which splits and expands anything else. *)
Definition shell (env : Env) (t : list Event) (command : string)
    (error : option Error) (f : gset string) : gset string :=
  match error, strip_prefix "rm -rf " command with
  | None, Some target =>
      if shell_word target then rm_rf target f else shell_outcome env t command f
  | _, _ => shell_outcome env t command f
  end.

(** The process is dead once an exception went uncaught. *)
Definition crashed (w : World) : bool :=
  match last (trace w) with
  | Some (EvThrow _) => true
  | _ => false
  end.

Definition Listener := Error → World → World.

(** An error thrown with the domain entered goes to the domain's ['error']
    listener; any other is an uncaught exception. *)
Definition raise (listener : option Listener) (bound : bool) (e : Error)
    (w : World) : World :=
  match listener with
  | Some h => if bound then h e w else emit (EvThrow e) w
  | None => emit (EvThrow e) w
  end.

(** An error the listener throws while the domain is still entered comes back
    to the listener; the run is not followed further. *)
Definition recaught : Listener := λ e w, emit (EvRecaught e) w.

(** [run env listener bound p w]: the world after [p] has run to its end from
    [w], with [listener] installed on the domain and the domain entered when
    [bound]. *)
Fixpoint run (env : Env) (listener : option Listener) (bound : bool)
    (p : Proc) (w : World) : World :=
  match p with
  | Stop => w
  | Resolve err => emit (EvCallback err) w
  | Throw e => raise listener bound e w
  | UtilLog tag line k => run env listener bound k (emit (EvLog tag line) w)
  | FsExists target k =>
      let found := bool_decide (target ∈ fs w) in
      run env listener bound (k found) (emit (EvExists target found) w)
  | Exec command k =>
      let error := exec_outcome env (trace w) command in
      let w := set_fs (shell env (trace w) command error (fs w)) w in
      run env listener bound (k error) (emit (EvExec command error) w)
  | Spawn command args cwd on_stdout on_stderr k =>
      let w := emit (EvSpawn command args cwd) w in
      let r := spawn_outcome env (trace w) command args cwd in
      let w :=
        fold_left (λ w chunk,
                     match chunk.1, on_stdout, on_stderr with
                     | Stdout, Some h, _ | Stderr, _, Some h =>
                         run env listener bound (h chunk.2) w
                     | _, _, _ => w
                     end)
                  (output r) w in
      let w := set_fs (fs w ∪ list_to_set (created r)) w in
      run env listener bound (k (exit_code r)) (emit (EvExit command (exit_code r)) w)
  | GetOptions o k => run env listener bound (k (heap w !!! o)) w
  | DeleteDestination o k =>
      run env listener bound k (set_heap (alter delete_destination o (heap w)) w)
  | MultiPartUpload req k =>
      let w := emit (EvUpload req) w in
      match upload_outcome env (trace w) req with
      | Responded err body =>
          run env listener bound (k err body) (emit (EvUploadDone err) w)
      | Faulted fault => raise listener bound fault (emit (EvFault fault) w)
      | RespondedThenFaulted err body fault =>
          let w := run env listener bound (k err body) (emit (EvUploadDone err) w) in
          if crashed w then w else raise listener bound fault (emit (EvFault fault) w)
      end
  | DomainOn handler k =>
      run env (Some (λ e w, run env (Some recaught) true (handler e) w)) bound k w
  | DomainBind k => run env listener true k w
  | DomainExit k => run env listener false k w
  end.

(** ** Vocabulary for argument lists and traces *)

(** An argument list read as flag/value pairs. *)
Fixpoint pairs (args : list string) : list (string * string) :=
  match args with
  | flag :: value :: args => (flag, value) :: pairs args
  | _ => []
  end.

(** The flag/value pairs written back as an argument list. *)
Definition unpairs (ps : list (string * string)) : list string :=
  ps ≫= λ p, [p.1; p.2].

(** The pairs of an argument list whose flag is one of [flags]. *)
Definition pairs_with (flags : list string) (args : list string)
    : list (string * string) :=
  filter (λ p, p.1 ∈ flags) (pairs args).

(** The world with further events recorded. *)
Definition extend (es : list Event) (w : World) : World :=
  {| fs := fs w; heap := heap w; trace := trace w ++ es |}.

(** The event a call of [log] records. *)
Definition log_event (message : string) (tag : option string) : Event :=
  let tag := or_else tag "info" in
  EvLog tag (strip_eol ("[" +:+ tag +:+ "] " +:+ message)).

Definition is_log (e : Event) : bool :=
  match e with EvLog _ _ => true | _ => false end.

Definition is_callback (e : Event) : bool :=
  match e with EvCallback _ => true | _ => false end.

Definition is_fault (e : Event) : bool :=
  match e with EvFault _ => true | _ => false end.

(** A stage starts with a child process or with the upload request. *)
Definition starts_stage (e : Event) : bool :=
  match e with EvSpawn _ _ _ | EvUpload _ => true | _ => false end.


Definition starts_upload (e : Event) : bool :=
  match e with EvUpload _ => true | _ => false end.




(** Something went wrong: a shell command, a child or the upload reported an
    error. *)
Definition failed (e : Event) : bool :=
  match e with
  | EvExec _ (Some _) | EvUploadDone (Some _) => true
  | EvExit _ code => negb (is_zero code)
  | _ => false
  end.

(** The error [err] is the one the failure [e] gave rise to: the error of the
    shell command or of the upload itself, or an error whose message ends with
    the exit code of the child. *)
Definition reports (e : Event) (err : Error) : Prop :=
  match e with
  | EvExec _ (Some e') | EvUploadDone (Some e') => err = e'
  | EvExit _ code =>
      ∃ label, err = MkError (label +:+ " exited with code " +:+ code_to_string code)
  | _ => False
  end.


(** The events of one call of [removeRF target] that resolves with [r]. *)
Inductive removal (target : string) : option Error → list Event → Prop :=
| removal_absent :
    removal target None [EvExists target false]
| removal_exec r :
    removal target r
      [ EvExists target true;
        log_event ("Removing " +:+ target) (Some "info");
        EvExec ("rm -rf " +:+ target) r ].

(** The events of one run of the two cleanup functions in series, resolving
    with [r]: the archive is only looked at when removing the directory did
    not fail. *)
Inductive cleaning (dir archive : string) : option Error → list Event → Prop :=
| cleaning_both r es1 es2 :
    removal dir None es1 → removal archive r es2 →
    cleaning dir archive r (es1 ++ es2)
| cleaning_stopped e es1 :
    removal dir (Some e) es1 →
    cleaning dir archive (Some e) es1.

(** The events of a child process from spawn to exit, with the lines logged
    for its output in between. *)
Inductive child (command : string) (args : list string) (cwd : option string)
    (code : ExitCode) : list Event → Prop :=
| child_ran logs :
    Forall (λ e, is_log e = true) logs →
    child command args cwd code
      (EvSpawn command args cwd :: logs ++ [EvExit command code]).

(** How the staged sequence can end: its callback is called with [err]; or
    the upload breaks and the callback is never called; or the callback is
    called and the upload breaks afterwards. *)
Inductive Ending :=
| Ended (err : option Error)
| Broke (fault : Error)
| EndedThenBroke (err : option Error) (fault : Error).

Section Shapes.

Variable path_join : string → string → string.
Variable os_tmpDir : string.
Variable date : Date.
Variable mongodbConfig : MongoConfig.

Let tmp := tmpDir path_join os_tmpDir.
Let name := getArchiveName date (db mongodbConfig).
Let dir := backupDir path_join os_tmpDir mongodbConfig.
Let archive := archivePath path_join os_tmpDir name.

Inductive dumping (code : ExitCode) : list Event → Prop :=
| dumping_ran es :
    child "mongodump" (mongoOptions mongodbConfig tmp) None code es →
    dumping code
      (log_event ("Starting mongodump of " +:+ db mongodbConfig) (Some "info")
         :: es ++
       if is_zero code
       then [log_event "mongodump executed successfully" (Some "info")]
       else []).

Inductive compressing (code : ExitCode) : list Event → Prop :=
| compressing_ran es :
    child "tar" ["-zcf"; name; db mongodbConfig] (Some tmp) code es →
    compressing code
      (log_event ("Starting compression of " +:+ db mongodbConfig
                    +:+ " into " +:+ name) (Some "info")
         :: es ++
       if is_zero code
       then [log_event "successfully compress directory" (Some "info")]
       else []).

Inductive uploading : Ending → list Event → Prop :=
| uploading_done line req body :
    uploading (Ended None)
      [ EvLog "info" line; EvUpload req; EvUploadDone None;
        log_event "Successfully uploaded to s3" None; log_event body None ]
| uploading_failed line req e :
    uploading (Ended (Some e))
      [ EvLog "info" line; EvUpload req; EvUploadDone (Some e) ]
| uploading_broke line req fault :
    uploading (Broke fault)
      [ EvLog "info" line; EvUpload req; EvFault fault ]
| uploading_late es err fault :
    uploading (Ended err) es →
    uploading (EndedThenBroke err fault) es.

(** The events of the series of stages: the two removals, the dump, the
    compression and the upload, up to the first that fails. *)
Inductive staged : Ending → list Event → Prop :=
| staged_unclean e pre :
    cleaning dir archive (Some e) pre →
    staged (Ended (Some e)) pre
| staged_undumped pre d code :
    cleaning dir archive None pre →
    dumping code d → is_zero code = false →
    staged
      (Ended (Some (MkError ("Mongodump exited with code " +:+ code_to_string code))))
      (pre ++ d)
| staged_uncompressed pre d c code :
    cleaning dir archive None pre →
    dumping (Some 0%Z) d →
    compressing code c → is_zero code = false →
    staged
      (Ended (Some (MkError ("Tar exited with code " +:+ code_to_string code))))
      (pre ++ d ++ c)
| staged_uploaded pre d c u ending :
    cleaning dir archive None pre →
    dumping (Some 0%Z) d →
    compressing (Some 0%Z) c →
    uploading ending u →
    staged ending (pre ++ d ++ c ++ u).

(** The line [sync] logs when the series of stages has called back. *)
Definition verdict_log (err : option Error) : Event :=
  match err with
  | Some e => log_event (error_to_string e) (Some "error")
  | None => log_event ("Successfully backed up " +:+ db mongodbConfig) None
  end.

(** The events of a whole job. *)
Inductive job : list Event → Prop :=
| job_ended s err r post :
    staged (Ended err) s → cleaning dir archive r post →
    job (s ++ verdict_log err :: post ++ [EvCallback err])
| job_broke s fault r post :
    staged (Broke fault) s → cleaning dir archive r post →
    job (s ++ post ++ [EvThrow fault])
| job_ended_then_broke s err fault r post r' post' :
    staged (EndedThenBroke err fault) s →
    cleaning dir archive r post → cleaning dir archive r' post' →
    job (s ++ verdict_log err :: post
           ++ EvCallback err :: EvFault fault :: post' ++ [EvThrow fault]).

End Shapes.

(** ** Properties of traces *)

(** The events a program adds to the trace when it runs at top level. *)
Definition events (env : Env) (p : Proc) (w : World) : list Event :=
  drop (length (trace w)) (trace (run env None false p w)).

(** A line logged with the tag [error]. *)
Definition logs_error (e : Event) : bool :=
  match e with EvLog tag _ => bool_decide (tag = "error") | _ => false end.

Definition is_upload_done (e : Event) : bool :=
  match e with EvUploadDone _ => true | _ => false end.

(** The requests handed to the multipart upload, oldest first. *)
Definition upload_requests (t : list Event) : list UploadRequest :=
  omap (λ e, match e with EvUpload req => Some req | _ => None end) t.



(** [err] is what the first failure of the trace gives rise to; it is [None]
    when nothing in the trace failed. *)
Definition first_failure (t : list Event) (err : option Error) : Prop :=
  match err with
  | Some e =>
      ∃ a f b, t = a ++ f :: b ∧ Forall (λ x, failed x = false) a ∧
               failed f = true ∧ reports f e
  | None => Forall (λ x, failed x = false) t
  end.


Section Claims.

Variable path_join : string → string → string.
Variable os_tmpDir : string.
Variable date : Date.
Variable mongodbConfig : MongoConfig.

Let name := getArchiveName date (db mongodbConfig).
Let dir := backupDir path_join os_tmpDir mongodbConfig.
Let archive := archivePath path_join os_tmpDir name.

(** How a job's trace goes on once the final cleanup is over. *)
Inductive aftermath : list Event → Prop :=
| aftermath_callback err :
    aftermath [EvCallback err]
| aftermath_throw fault :
    aftermath [EvThrow fault]
| aftermath_late err fault r post :
    cleaning dir archive r post →
    aftermath (EvCallback err :: EvFault fault :: post ++ [EvThrow fault]).

(** Every fault is followed by a run of the cleanup and then by the throw
    of that very error, which nothing catches, and by nothing else: no
    callback comes after a fault. *)
Definition faults_escalated (t : list Event) : Prop :=
  ∀ a fault b, t = a ++ EvFault fault :: b →
    ∃ r post,
      cleaning dir archive r post ∧
      b = post ++ [EvThrow fault] ∧
      Forall (λ e, is_callback e = false) b.

(** What the callback is given is decided by the stages alone: before the
    callback come the stages, the line logging their verdict, and a run of
    the cleanup whose own result [r] goes nowhere; no line of that run is
    logged as an error. *)
Definition reports_stages_only (t : list Event) : Prop :=
  ∀ a err b, t = a ++ EvCallback err :: b →
    ∃ stages r post,
      a = stages ++ verdict_log mongodbConfig err :: post ∧
      cleaning dir archive r post ∧
      first_failure stages err ∧
      Forall (λ x, logs_error x = false) post.

(** A removal that fails before any stage has started ends the series: what
    follows is the error line, a run of the cleanup, and the callback with
    that error. *)
Definition unclean_aborts (t : list Event) : Prop :=
  ∀ a command e b, t = a ++ EvExec command (Some e) :: b →
    Forall (λ x, starts_stage x = false) a →
    Forall (λ x, failed x = false) a →
    ∃ r post,
      cleaning dir archive r post ∧
      b = verdict_log mongodbConfig (Some e) :: post ++ [EvCallback (Some e)].

End Claims.

(** An event that starts a stage or reports a failure. *)
Definition eventful (x : Event) : bool := starts_stage x || failed x.

(** ** Tactics for reading traces *)

Ltac flatten_lists :=
  repeat (rewrite <-?app_assoc; cbn [app is_zero]).


(** [quiet] proves that no event of a list built from the shapes satisfies a
    given test. *)
Ltac quiet :=
  repeat first
    [ assumption
    | apply Forall_nil_2
    | apply Forall_cons_2;
        [first [ done
               | by match goal with
                    | |- context [verdict_log _ ?err] => destruct err
                    end ]|]
    | apply Forall_app_2
    | match goal with
      | H : Forall (λ e, is_log e = true) ?es |- Forall _ ?es =>
          apply (Forall_impl _ _ _ H); intros [] ?; done
      | H : cleaning _ _ _ ?es |- Forall _ ?es => inversion H; subst; clear H
      | H : removal _ _ ?es |- Forall _ ?es => inversion H; subst; clear H
      | H : child _ _ _ _ ?es |- Forall _ ?es => inversion H; subst; clear H
      | H : dumping _ _ _ _ ?es |- Forall _ ?es => inversion H; subst; clear H
      | H : compressing _ _ _ _ _ ?es |- Forall _ ?es => inversion H; subst; clear H
      | H : uploading _ ?es |- Forall _ ?es => inversion H; subst; clear H
      | |- Forall _ (if is_zero ?c then _ else _) => destruct (is_zero c)
      end ].

(** [descend over_quiet over_one] goes down a list, past the segments and the
    events that a property lets through, by the two lemmas that say so. *)
Ltac descend over_quiet over_one :=
  flatten_lists;
  repeat first
    [ apply over_quiet; [by quiet|]
    | apply over_one; [done|] ].







(** ** Further vocabulary *)

(** The last character of a string. *)
Fixpoint last_char (s : string) : option Ascii.ascii :=
  match s with
  | "" => None
  | String c "" => Some c
  | String _ s => last_char s
  end.

Definition is_throw (e : Event) : bool :=
  match e with EvThrow _ => true | _ => false end.

(** The lines logged for the output of a child: a chunk is logged when its
    stream has a listener, with the tag that listener gives to [log]. *)
Definition forwarded (out err : option (option string))
    (chunks : list (Stream * string)) : list Event :=
  omap (λ chunk : Stream * string,
          match chunk.1, out, err with
          | Stdout, Some tag, _ | Stderr, _, Some tag => Some (log_event chunk.2 tag)
          | _, _, _ => None
          end)
       chunks.

(** What a job may ask of the machine: whether its two scratch paths exist;
    of the shell, the command lines ['rm -rf ' + dir] and
    ['rm -rf ' + archive]; and to start [mongodump] with [dump_args], and
    [tar] with [tar_args] in its scratch directory. *)
Definition within_scratch (dump_args tar_args : list string)
    (tmp dir archive : string) (e : Event) : Prop :=
  match e with
  | EvExists path _ => path = dir ∨ path = archive
  | EvExec command _ =>
      command = "rm -rf " +:+ dir ∨ command = "rm -rf " +:+ archive
  | EvSpawn command args cwd =>
      (command = "mongodump" ∧ args = dump_args ∧ cwd = None) ∨
      (command = "tar" ∧ args = tar_args ∧ cwd = Some tmp)
  | _ => True
  end.

(** Options that [knox.createClient] takes without throwing: the key and the
    secret are not empty, and the bucket name is made of 3 to 63 lower-case
    letters and digits. *)
Definition createClient_accepts (o : S3Options) : bool :=
  negb (bool_decide (key o = "")) && negb (bool_decide (secret o = "")) &&
  all_in "abcdefghijklmnopqrstuvwxyz0123456789" (bucket o) &&
  bool_decide (3 ≤ String.length (bucket o) ≤ 63)%nat.

(** If [e] asks for an upload, it is the upload [req]. *)
Definition uploads (req : UploadRequest) (e : Event) : Prop :=
  match e with
  | EvUpload req' => req' = req
  | _ => True
  end.

(** ** A sample job *)

Module Sample.

(** A stand-in for [path.join] on paths that need no normalising. *)
Definition join (a b : string) : string := a +:+ "/" +:+ b.

Definition tmp : string := "/tmp".

Definition date : Date :=
  {| getFullYear := 2014; getMonth := 0; getDate := 5;
     getTime := 1388880000000 |}.

Definition mongo : MongoConfig :=
  {| host := "localhost"; port := 27017; db := "app";
     username := Some "admin"; password := Some "s3cret";
     authenticationDatabase := None;
     excludeCollection := Some ["a"; "b"; "c"] |}.

(** The same database, with a username and no password. *)
Definition mongo_user_only : MongoConfig :=
  {| host := "localhost"; port := 27017; db := "app";
     username := Some "admin"; password := None;
     authenticationDatabase := None;
     excludeCollection := None |}.

Definition s3 : S3Options :=
  {| key := "AKIA"; secret := "shh"; bucket := "backups";
     destination := Some "/nightly"; encrypt := true |}.

Definition config : loc := 1%positive.

Definition name : string := getArchiveName date (db mongo).
Definition dir : string := backupDir join tmp mongo.
Definition archive : string := archivePath join tmp name.

(** Nothing is left over from an earlier run. *)
Definition clean : World :=
  {| fs := ∅; heap := {[ config := s3 ]}; trace := [] |}.

(** An earlier run left its dump directory behind. *)
Definition stale : World :=
  {| fs := {[ dir ]}; heap := {[ config := s3 ]}; trace := [] |}.

Definition denied : Error := MkError "Command failed: rm: Permission denied".
Definition epipe : Error := MkError "write EPIPE".

(** The children do their work and exit with status 0. *)
Definition children : list Event → string → list string → option string → SpawnResult :=
  λ _ command _ _,
    if bool_decide (command = "mongodump")
    then {| output := [(Stderr, "done dumping app")]; created := [dir];
            exit_code := Some 0%Z |}
    else {| output := []; created := [archive]; exit_code := Some 0%Z |}.

(** Everything works. *)
Definition fine : Env :=
  {| exec_outcome := λ _ _, None;
     shell_outcome := λ _ _ f, f;
     spawn_outcome := children;
     upload_outcome := λ _ _, Responded None "{}" |}.

(** Everything works, except that [rm] is denied once the upload is done. *)
Definition denied_at_the_end : Env :=
  {| exec_outcome := λ t _, if existsb is_upload_done t then Some denied else None;
     shell_outcome := λ _ _ f, f;
     spawn_outcome := children;
     upload_outcome := λ _ _, Responded None "{}" |}.

(** [rm] is always denied. *)
Definition always_denied : Env :=
  {| exec_outcome := λ _ _, Some denied;
     shell_outcome := λ _ _ f, f;
     spawn_outcome := children;
     upload_outcome := λ _ _, Responded None "{}" |}.

(** [rm] is denied the first time it is tried, and works afterwards. *)
Definition denied_once : Env :=
  {| exec_outcome :=
       λ t _, if existsb (λ e, match e with EvExec _ _ => true | _ => false end) t
              then None else Some denied;
     shell_outcome := λ _ _ f, f;
     spawn_outcome := children;
     upload_outcome := λ _ _, Responded None "{}" |}.

(** The upload reports success, and its connection breaks afterwards. *)
Definition broken_pipe : Env :=
  {| exec_outcome := λ _ _, None;
     shell_outcome := λ _ _ f, f;
     spawn_outcome := children;
     upload_outcome := λ _ _, RespondedThenFaulted None "{}" epipe |}.

Definition backup (cfg : MongoConfig) : Proc :=
  sync join tmp date cfg config (Some Resolve).

(** A minute later. *)
Definition later : Date :=
  {| getFullYear := 2014; getMonth := 0; getDate := 5;
     getTime := 1388880060000 |}.

(** The dump works and [tar] fails: a dump directory is left to remove. *)
Definition tar_fails : Env :=
  {| exec_outcome := λ _ _, None;
     shell_outcome := λ _ _ f, f;
     spawn_outcome :=
       λ _ command _ _,
         if bool_decide (command = "mongodump")
         then {| output := [(Stdout, "dumping app")]; created := [dir];
                 exit_code := Some 0%Z |}
         else {| output := [(Stderr, "tar: write error")]; created := [archive];
                 exit_code := Some 2%Z |};
     upload_outcome := λ _ _, Responded None "{}" |}.

(** The upload breaks, and [rm] is denied from then on. *)
Definition broken_and_denied : Env :=
  {| exec_outcome := λ t _, if existsb is_fault t then Some denied else None;
     shell_outcome := λ _ _ f, f;
     spawn_outcome := children;
     upload_outcome := λ _ _, Faulted epipe |}.

(** A path with a space in it, alone on the disk. *)
Definition spaced : string := "/tmp/my db".

Definition cluttered : World :=
  {| fs := {[ spaced ]}; heap := ∅; trace := [] |}.

(** A shell that reads [rm -rf /tmp/my db] as the removal of [/tmp/my] and of
    [db], which [rm -f] does without complaint when they are missing. *)
Definition splitting : Env :=
  {| exec_outcome := λ _ _, None;
     shell_outcome := λ _ _ f, f ∖ {[ "/tmp/my"; "db" ]};
     spawn_outcome := children;
     upload_outcome := λ _ _, Responded None "{}" |}.

End Sample.

(** * Properties *)

(** ** The argument list of [mongodump] *)

Lemma pairs_unpairs ps : pairs (unpairs ps) = ps.
Proof.
  induction ps as [|[flag value] ps IH]; [done|].
  cbn. unfold unpairs in IH. by rewrite IH.
Qed.

Lemma unpairs_app ps qs : unpairs (ps ++ qs) = unpairs ps ++ unpairs qs.
Proof. unfold unpairs. by rewrite bind_app. Qed.

Lemma fold_exclusions (collections : list string) (acc : list string) :
  fold_left (λ mongoOptions collection,
               mongoOptions ++ ["--excludeCollection"; collection])
            collections acc
  = acc ++ unpairs (("--excludeCollection",.) <$> collections).
Proof.
  revert acc. induction collections as [|c cs IH]; intros acc; cbn.
  - by rewrite app_nil_r.
  - rewrite IH, <-app_assoc. done.
Qed.

(** [mongoOptions] is a list of flag/value pairs: the three connection pairs,
    then the credentials, the authentication database and the exclusions. *)
Lemma mongoOptions_pairs options directory :
  mongoOptions options directory =
    unpairs
      ([ ("-h", host options +:+ ":" +:+ pretty (port options));
         ("-d", db options);
         ("-o", directory) ]
       ++ (if truthy (username options) && truthy (password options)
           then [("-u", or_else (username options) "");
                 ("-p", or_else (password options) "")]
           else [])
       ++ (if truthy (authenticationDatabase options)
           then [("--authenticationDatabase",
                  or_else (authenticationDatabase options) "")]
           else [])
       ++ (("--excludeCollection",.) <$> default [] (excludeCollection options))).
Proof.
  unfold mongoOptions.
  destruct (excludeCollection options) as [cs|]; cbn [default];
    rewrite ?fold_exclusions;
    destruct (truthy (username options) && truthy (password options));
    destruct (truthy (authenticationDatabase options));
    rewrite ?unpairs_app, ?fmap_nil, ?app_nil_r, <-?app_assoc; done.
Qed.

Lemma filter_exclusions (flags : list string) (cs : list string) :
  filter (λ p : string * string, p.1 ∈ flags) (("--excludeCollection",.) <$> cs)
  = if bool_decide ("--excludeCollection" ∈ flags)
    then ("--excludeCollection",.) <$> cs else [].
Proof.
  induction cs as [|c cs IH]; [by case_bool_decide|].
  rewrite fmap_cons, filter_cons, IH. cbn.
  case_decide; case_bool_decide; done.
Qed.

(** C5, as the code has it: the credentials are emitted as the two pairs
    [-u username] and [-p password], in that order, when both the username and
    the password are present and non-empty; in every other case, also when
    exactly one of them is present, the argument list has no credential pair
    at all. *)
Theorem mongoOptions_credentials options directory :
  pairs_with ["-u"; "-p"] (mongoOptions options directory) =
    match username options, password options with
    | Some u, Some p =>
        if bool_decide (u ≠ "" ∧ p ≠ "") then [("-u", u); ("-p", p)] else []
    | _, _ => []
    end.
Proof.
  unfold pairs_with. rewrite mongoOptions_pairs, pairs_unpairs.
  rewrite !filter_app, filter_exclusions.
  destruct (username options) as [[|a u]|], (password options) as [[|c p]|];
    destruct (truthy (authenticationDatabase options)); done.
Qed.

(** C9: the argument list has exactly one [--excludeCollection] pair per
    excluded collection, in the order of the input list, and none when the
    list is absent or empty. *)
Theorem mongoOptions_exclusions options directory :
  pairs_with ["--excludeCollection"] (mongoOptions options directory) =
    ("--excludeCollection",.) <$> default [] (excludeCollection options).
Proof.
  unfold pairs_with. rewrite mongoOptions_pairs, pairs_unpairs.
  rewrite !filter_app, filter_exclusions.
  destruct (truthy (username options) && truthy (password options));
    destruct (truthy (authenticationDatabase options)); done.
Qed.

(** ** Running the functions of [index.js] *)

Lemma run_log env l b message tag k w :
  run env l b (log message tag k) w = run env l b k (emit (log_event message tag) w).
Proof. done. Qed.

Lemma strip_prefix_app p s : strip_prefix p (p +:+ s) = Some s.
Proof.
  induction p as [|a p IH]; [done|].
  change (strip_prefix (String a p) (String a (p +:+ s)) = Some s).
  cbn [strip_prefix]. by rewrite bool_decide_true.
Qed.

Lemma shell_rm_rf env t target f :
  shell_word target = true →
  shell env t ("rm -rf " +:+ target) None f = rm_rf target f.
Proof. intros Hword. unfold shell. by rewrite strip_prefix_app, Hword. Qed.

Lemma not_elem_of_rm_rf target f : target ∉ rm_rf target f.
Proof.
  unfold rm_rf. rewrite elem_of_filter. intros [Hunder _].
  unfold under in Hunder. by rewrite bool_decide_true in Hunder.
Qed.

Section Running.

Variable env : Env.

(** [removeRF] calls back exactly once.  When the path is missing it
    resolves at once; when it resolves without error and the path is one word
    for the shell, the path is gone. *)
Lemma run_removeRF l b target w :
  ∃ r es w',
    removal target r es ∧ trace w' = trace w ++ es ∧ heap w' = heap w ∧
    (target ∉ fs w → r = None ∧ w' = emit (EvExists target false) w) ∧
    (r = None → shell_word target = true → target ∉ fs w') ∧
    ∀ cb, run env l b (removeRF target (Some cb)) w = run env l b (cb r) w'.
Proof.
  unfold removeRF. cbn [run or_noop].
  destruct (decide (target ∈ fs w)) as [Hin|Hout].
  - rewrite bool_decide_true by done. cbn [negb].
    eexists _, _, _. split; [apply removal_exec|].
    split; [|split; [|split; [done|split; [|intros cb; rewrite run_log; done]]]].
    + cbn. rewrite <-!app_assoc. done.
    + done.
    + intros -> Hword. cbn [fs emit set_fs].
      rewrite shell_rm_rf by done. apply not_elem_of_rm_rf.
  - rewrite bool_decide_false by done. cbn [negb].
    exists None, [EvExists target false], (emit (EvExists target false) w).
    split; [apply removal_absent|]. repeat split; done.
Qed.

(** The output of a child is logged line by line. *)
Lemma run_forward l b (out err : option (option string)) chunks w :
  ∃ logs,
    Forall (λ e, is_log e = true) logs ∧
    fold_left
      (λ w (chunk : Stream * string),
         match chunk.1, (λ tag data, log data tag Stop) <$> out,
               (λ tag data, log data tag Stop) <$> err with
         | Stdout, Some h, _ | Stderr, _, Some h => run env l b (h chunk.2) w
         | _, _, _ => w
         end)
      chunks w
    = extend logs w.
Proof.
  revert w. induction chunks as [|[stream data] chunks IH]; intros w.
  - exists []. split; [constructor|]. destruct w. unfold extend. cbn.
    by rewrite app_nil_r.
  - cbn [fold_left].
    match goal with |- context [fold_left _ chunks ?w1] =>
      destruct (IH w1) as (logs & Hlogs & ->) end.
    destruct stream, out as [tag|], err as [tag'|]; cbn;
      first [ exists logs; split; [done|]; done
            | eexists (EvLog _ _ :: logs); split;
              [by constructor
              |unfold extend; cbn; rewrite <-app_assoc; done] ].
Qed.

(** A child is spawned, its output is logged, and it exits once. *)
Lemma run_spawn l b command args cwd (out err : option (option string)) k w :
  ∃ code es w',
    child command args cwd code es ∧ trace w' = trace w ++ es ∧
    heap w' = heap w ∧
    run env l b
      (Spawn command args cwd
         ((λ tag data, log data tag Stop) <$> out)
         ((λ tag data, log data tag Stop) <$> err) k) w
    = run env l b (k code) w'.
Proof.
  cbn [run].
  set (w1 := emit (EvSpawn command args cwd) w).
  set (r := spawn_outcome env (trace w1) command args cwd).
  destruct (run_forward l b out err (output r) w1) as (logs & Hlogs & ->).
  eexists (exit_code r), _, _. split; [by apply child_ran|].
  split; [|split; [|done]]; [|done].
  cbn. rewrite <-!app_assoc. done.
Qed.

(** [mongoDump] calls back once its child has exited: with no error when
    the exit code is 0, with an error naming the code otherwise. *)
Lemma run_mongoDump_any l b options directory cb w :
  ∃ code es w',
    child "mongodump" (mongoOptions options directory) None code es ∧
    trace w' = trace w
      ++ log_event ("Starting mongodump of " +:+ db options) (Some "info")
      :: es ++ (if is_zero code
                then [log_event "mongodump executed successfully" (Some "info")]
                else []) ∧
    heap w' = heap w ∧
    run env l b (mongoDump options directory (Some cb)) w
    = run env l b
        (cb (if is_zero code then None
             else Some (MkError ("Mongodump exited with code "
                                   +:+ code_to_string code)))) w'.
Proof.
  unfold mongoDump. rewrite run_log. cbn [or_noop].
  edestruct (run_spawn l b "mongodump" (mongoOptions options directory) None
               (Some None) (Some (Some "error")))
    as (code & es & w1 & Hc & Ht & Hh & ->).
  destruct (is_zero code) eqn:Hz.
  - rewrite run_log. eexists code, es, _. rewrite Hz.
    split; [done|]. split; [|split; [|done]]; [|done].
    cbn. rewrite Ht. cbn. rewrite <-!app_assoc. done.
  - eexists code, es, w1. rewrite Hz.
    split; [done|]. split; [|split; [|done]]; [|done].
    rewrite Ht. cbn. rewrite app_nil_r, <-app_assoc. done.
Qed.

Lemma run_compressDirectory_any l b directory input output cb w :
  ∃ code es w',
    child "tar" ["-zcf"; output; input] (Some directory) code es ∧
    trace w' = trace w
      ++ log_event ("Starting compression of " +:+ input +:+ " into " +:+ output)
           (Some "info")
      :: es ++ (if is_zero code
                then [log_event "successfully compress directory" (Some "info")]
                else []) ∧
    heap w' = heap w ∧
    run env l b (compressDirectory directory input output (Some cb)) w
    = run env l b
        (cb (if is_zero code then None
             else Some (MkError ("Tar exited with code "
                                   +:+ code_to_string code)))) w'.
Proof.
  unfold compressDirectory. rewrite run_log. cbn [or_noop].
  edestruct (run_spawn l b "tar" ["-zcf"; output; input] (Some directory)
               None (Some (Some "error")))
    as (code & es & w1 & Hc & Ht & Hh & ->).
  destruct (is_zero code) eqn:Hz.
  - rewrite run_log. eexists code, es, _. rewrite Hz.
    split; [done|]. split; [|split; [|done]]; [|done].
    cbn. rewrite Ht. cbn. rewrite <-!app_assoc. done.
  - eexists code, es, w1. rewrite Hz.
    split; [done|]. split; [|split; [|done]]; [|done].
    rewrite Ht. cbn. rewrite app_nil_r, <-app_assoc. done.
Qed.

Section Stages.

Variable path_join : string → string → string.
Variable os_tmpDir : string.
Variable date : Date.
Variable mongodbConfig : MongoConfig.

Local Abbreviation tmp := (tmpDir path_join os_tmpDir).
Local Abbreviation name := (getArchiveName date (db mongodbConfig)).
Local Abbreviation dir := (backupDir path_join os_tmpDir mongodbConfig).
Local Abbreviation archive := (archivePath path_join os_tmpDir name).
Local Abbreviation cleanupFns :=
  (tmpDirCleanupFns path_join os_tmpDir mongodbConfig name).

(** The two removals at the head of a series: the rest of the series runs
    when both resolve without error. *)
Lemma run_cleanup_then l b rest cb w :
  ∃ r es w',
    cleaning dir archive r es ∧ trace w' = trace w ++ es ∧
    heap w' = heap w ∧
    run env l b (series (cleanupFns ++ rest) cb) w
    = match r with
      | Some e => run env l b (cb (Some e)) w'
      | None => run env l b (series rest cb) w'
      end.
Proof.
  unfold tmpDirCleanupFns. cbn [app series].
  destruct (run_removeRF l b dir w) as (r1 & es1 & w1 & H1 & Ht1 & Hh1 & _ & _ & ->).
  destruct r1 as [e|].
  - exists (Some e), es1, w1. split; [by apply cleaning_stopped|done].
  - destruct (run_removeRF l b archive w1) as (r2 & es2 & w2 & H2 & Ht2 & Hh2 & _ & _ & ->).
    exists r2, (es1 ++ es2), w2. split; [by eapply cleaning_both|].
    split; [by rewrite Ht2, Ht1, app_assoc|].
    split; [congruence|]. by destruct r2.
Qed.

Lemma run_cleanup l b cb w :
  ∃ r es w',
    cleaning dir archive r es ∧ trace w' = trace w ++ es ∧
    heap w' = heap w ∧
    run env l b (series cleanupFns cb) w = run env l b (cb r) w'.
Proof.
  destruct (run_cleanup_then l b [] cb w) as (r & es & w' & H & Ht & Hh & Hrun).
  rewrite app_nil_r in Hrun.
  exists r, es, w'. repeat split; [done..|]. rewrite Hrun. by destruct r.
Qed.

Lemma run_mongoDump l b cb w :
  ∃ code es w',
    dumping path_join os_tmpDir mongodbConfig code es ∧
    trace w' = trace w ++ es ∧ heap w' = heap w ∧
    run env l b (mongoDump mongodbConfig tmp (Some cb)) w
    = run env l b
        (cb (if is_zero code then None
             else Some (MkError ("Mongodump exited with code "
                                   +:+ code_to_string code)))) w'.
Proof.
  destruct (run_mongoDump_any l b mongodbConfig tmp cb w)
    as (code & es & w' & Hc & Ht & Hh & Hrun).
  eexists code, _, w'. split; [by apply dumping_ran|done].
Qed.

Lemma run_compressDirectory l b cb w :
  ∃ code es w',
    compressing path_join os_tmpDir date mongodbConfig code es ∧
    trace w' = trace w ++ es ∧ heap w' = heap w ∧
    run env l b (compressDirectory tmp (db mongodbConfig) name (Some cb)) w
    = run env l b
        (cb (if is_zero code then None
             else Some (MkError ("Tar exited with code "
                                   +:+ code_to_string code)))) w'.
Proof.
  destruct (run_compressDirectory_any l b tmp (db mongodbConfig) name cb w)
    as (code & es & w' & Hc & Ht & Hh & Hrun).
  eexists code, _, w'. split; [by apply compressing_ran|done].
Qed.

(** The callback [sync] gives to the series of stages: it logs the
    verdict, runs the cleanup, and only then calls the job's callback. *)
Lemma run_verdict l b err w :
  ∃ r post,
    cleaning dir archive r post ∧
    trace
      (run env l b
         ((match err with
           | Some e => log (error_to_string e) (Some "error")
           | None => log ("Successfully backed up " +:+ db mongodbConfig) None
           end) (series cleanupFns (λ _, Resolve err))) w)
    = trace w ++ verdict_log mongodbConfig err :: post ++ [EvCallback err].
Proof.
  assert (∀ message tag,
    ∃ r post, cleaning dir archive r post ∧
      trace (run env l b (log message tag (series cleanupFns (λ _, Resolve err))) w)
      = trace w ++ log_event message tag :: post ++ [EvCallback err]) as Hlog.
  { intros message tag. rewrite run_log.
    edestruct (run_cleanup l b) as (r & post & w' & Hpost & Ht & _ & ->).
    exists r, post. split; [done|]. cbn. rewrite Ht. cbn.
    by rewrite <-!app_assoc. }
  destruct err as [e|]; apply Hlog.
Qed.

(** The domain's listener: it runs the cleanup and throws the error,
    which nothing catches. *)
Lemma run_onDomainError l b fault w :
  ∃ r post,
    cleaning dir archive r post ∧
    trace (run env l b (onDomainError path_join os_tmpDir mongodbConfig name fault) w)
    = trace w ++ post ++ [EvThrow fault].
Proof.
  unfold onDomainError. cbn [run].
  edestruct (run_cleanup l false) as (r & post & w' & Hpost & Ht & _ & ->).
  exists r, post. split; [done|].
  cbn [run]. unfold raise. destruct l; cbn; rewrite Ht, <-app_assoc; done.
Qed.

Lemma crashed_callback w w' es err :
  trace w' = trace w ++ es ++ [EvCallback err] → crashed w' = false.
Proof.
  intros Ht. unfold crashed. by rewrite Ht, app_assoc, last_snoc.
Qed.

(** Every run of [sync] has the events of a job. *)
Lemma sync_job s3Config w :
  ∃ es,
    trace (run env None false
             (sync path_join os_tmpDir date mongodbConfig s3Config (Some Resolve)) w)
    = trace w ++ es ∧
    job path_join os_tmpDir date mongodbConfig es.
Proof.
  unfold sync. cbn [run or_noop].
  match goal with |- context [run env ?l false (series _ ?fin) w] =>
    set (L := l); set (verdict := fin) end.
  edestruct (run_cleanup_then L false) as (r & pre & w1 & Hpre & Ht1 & _ & ->).
  destruct r as [e|].
  { destruct (run_verdict L false (Some e) w1) as (r & post & Hpost & Ht).
    eexists. split; [|by eapply job_ended; [apply staged_unclean|]].
    subst verdict. cbv beta iota. etrans; [exact Ht|]. rewrite Ht1, <-app_assoc. done. }
  cbn [series].
  edestruct (run_mongoDump L false) as (code & d & w2 & Hd & Ht2 & _ & ->).
  destruct (is_zero code) eqn:Hcode; cycle 1.
  { match goal with |- context [verdict ?x] =>
      destruct (run_verdict L false x w2) as (r & post & Hpost & Ht) end.
    eexists. split; [|by eapply job_ended; [eapply staged_undumped|]].
    subst verdict. cbv beta iota. etrans; [exact Ht|].
    rewrite Ht2, Ht1, <-!app_assoc. done. }
  assert (code = Some 0%Z) as -> by (by destruct code as [[]|]).
  edestruct (run_compressDirectory L false) as (code & c & w3 & Hc & Ht3 & _ & ->).
  clear Hcode. destruct (is_zero code) eqn:Hcode; cycle 1.
  { match goal with |- context [verdict ?x] =>
      destruct (run_verdict L false x w3) as (r & post & Hpost & Ht) end.
    eexists. split; [|by eapply job_ended; [eapply staged_uncompressed|]].
    subst verdict. cbv beta iota. etrans; [exact Ht|].
    rewrite Ht3, Ht2, Ht1, <-!app_assoc. done. }
  assert (code = Some 0%Z) as -> by (by destruct code as [[]|]).
  unfold d_bind, sendToS3. cbn [run or_noop]. rewrite run_log. cbn [run].
  match goal with |- context [upload_outcome env ?t ?req] =>
    destruct (upload_outcome env t req) as [err body|fault|err body fault] end.
  - destruct err as [e|].
    + edestruct (run_verdict L true (Some e)) as (r & post & Hpost & Ht).
      eexists. split;
        [|by eapply job_ended;
            [eapply staged_uploaded; [..|apply uploading_failed]|] ].
      subst verdict. cbv beta iota. etrans; [exact Ht|]. cbn.
      rewrite Ht3, Ht2, Ht1.
      rewrite <-!app_assoc. done.
    + rewrite !run_log. cbn [series].
      edestruct (run_verdict L true None) as (r & post & Hpost & Ht).
      eexists. split;
        [|by eapply job_ended;
            [eapply staged_uploaded; [..|apply uploading_done]|] ].
      subst verdict. cbv beta iota. etrans; [exact Ht|]. cbn.
      rewrite Ht3, Ht2, Ht1.
      rewrite <-!app_assoc. done.
  - unfold raise, L.
    edestruct (run_onDomainError (Some recaught) true) as (r & post & Hpost & Ht).
    eexists. split;
      [|by eapply job_broke;
          [eapply staged_uploaded; [..|apply uploading_broke]|] ].
    etrans; [exact Ht|]. cbn. rewrite Ht3, Ht2, Ht1. rewrite <-!app_assoc. done.
  - cbv zeta.
    match goal with |- context [crashed ?w0] =>
      assert (∃ r post, cleaning dir archive r post ∧
                ∃ u, uploading (Ended err) u ∧
                trace w0 = trace w3 ++ u
                    ++ verdict_log mongodbConfig err :: post ++ [EvCallback err])
        as (r & post & Hpost & u & Hu & Ht);
      [|set (w4 := w0) in * ]
    end.
    { destruct err as [e|].
      - edestruct (run_verdict L true (Some e)) as (r & post & Hpost & Ht).
        exists r, post. split; [done|].
        eexists. split; [apply uploading_failed|].
        subst verdict. cbv beta iota. etrans; [exact Ht|]. cbn.
        rewrite <-!app_assoc. done.
      - rewrite !run_log. cbn [series].
        edestruct (run_verdict L true None) as (r & post & Hpost & Ht).
        exists r, post. split; [done|].
        eexists. split; [apply uploading_done|].
        subst verdict. cbv beta iota. etrans; [exact Ht|]. cbn.
        rewrite <-!app_assoc. done. }
    rewrite (crashed_callback w3 w4 (u ++ verdict_log mongodbConfig err :: post) err)
      by (by rewrite Ht, <-!app_assoc).
    unfold raise, L.
    edestruct (run_onDomainError (Some recaught) true) as (r' & post' & Hpost' & Ht').
    exists (pre ++ d ++ c ++ u ++ verdict_log mongodbConfig err :: post
              ++ EvCallback err :: EvFault fault :: post' ++ [EvThrow fault]).
    split.
    + etrans; [exact Ht'|]. cbn. rewrite Ht, Ht3, Ht2, Ht1.
      rewrite <-!app_assoc. cbn. rewrite <-!app_assoc. done.
    + match goal with |- job _ _ _ _ (pre ++ d ++ c ++ u ++ ?rest) =>
        replace (pre ++ d ++ c ++ u ++ rest) with ((pre ++ d ++ c ++ u) ++ rest)
          by (by rewrite <-!app_assoc) end.
      eapply job_ended_then_broke; [|done..].
      eapply staged_uploaded; [done..|]. by apply uploading_late.
Qed.

End Stages.

End Running.

(** ** Reading traces *)

Lemma events_eq env p w es :
  trace (run env None false p w) = trace w ++ es → events env p w = es.
Proof. intros Ht. unfold events. by rewrite Ht, drop_app_length. Qed.

Section Lists.

Context {A : Type}.
Implicit Types (P Q : A → bool) (x y a b t : list A).

(** The first [P] element of a list splits it in one way only. *)
Lemma first_unique P x e y a e' b :
  Forall (λ z, P z = false) x → Forall (λ z, P z = false) a →
  P e = true → P e' = true →
  x ++ e :: y = a ++ e' :: b → a = x ∧ e' = e ∧ b = y.
Proof.
  intros Hx. revert a. induction Hx as [|h x Hh Hx IH]; intros a Ha He He' Heq.
  - destruct a as [|h' a]; simplify_eq/=; [done|].
    apply Forall_cons in Ha as [? _]. congruence.
  - destruct a as [|h' a]; simplify_eq/=; [congruence|].
    apply Forall_cons in Ha as [_ Ha].
    destruct (IH a) as (-> & -> & ->); done.
Qed.

(** The only [P] element of a list splits it in one way only. *)
Lemma only_unique P x e y a e' b :
  Forall (λ z, P z = false) x → Forall (λ z, P z = false) y →
  P e = true → P e' = true →
  x ++ e :: y = a ++ e' :: b → a = x ∧ e' = e ∧ b = y.
Proof.
  intros Hx. revert a. induction Hx as [|h x Hh Hx IH]; intros a Hy He He' Heq.
  - destruct a as [|h' a]; simplify_eq/=; [done|].
    apply Forall_app in Hy as [_ Hy]. apply Forall_cons in Hy as [? _].
    congruence.
  - destruct a as [|h' a]; simplify_eq/=; [congruence|].
    destruct (IH a) as (-> & -> & ->); done.
Qed.

End Lists.














Section Pipeline.

Variable env : Env.
Variable path_join : string → string → string.
Variable os_tmpDir : string.
Variable date : Date.
Variable mongodbConfig : MongoConfig.
Variable s3Config : loc.

Local Abbreviation name := (getArchiveName date (db mongodbConfig)).
Local Abbreviation dir := (backupDir path_join os_tmpDir mongodbConfig).
Local Abbreviation archive := (archivePath path_join os_tmpDir name).
Local Abbreviation the_job :=
  (sync path_join os_tmpDir date mongodbConfig s3Config (Some Resolve)).

Lemma events_job w : job path_join os_tmpDir date mongodbConfig (events env the_job w).
Proof.
  destruct (sync_job env path_join os_tmpDir date mongodbConfig s3Config w)
    as (es & Ht & Hjob).
  by rewrite (events_eq _ _ _ _ Ht).
Qed.

Lemma staged_no_callback ending s :
  staged path_join os_tmpDir date mongodbConfig ending s →
  Forall (λ e, is_callback e = false) s.
Proof. intros Hs. inversion Hs; subst; quiet. Qed.

Lemma cleaning_no_callback r post :
  cleaning dir archive r post → Forall (λ e, is_callback e = false) post.
Proof. intros. quiet. Qed.

Lemma cleaning_no_stage r post :
  cleaning dir archive r post → Forall (λ e, starts_stage e = false) post.
Proof. intros. quiet. Qed.

Lemma verdict_log_is_log err : is_log (verdict_log mongodbConfig err) = true.
Proof. by destruct err. Qed.

(** C1, as the code has it: whatever the stages did, in a job whose children
    exit, the trace is: the events of the stages, then a run of the cleanup
    functions in series, then the aftermath, which is the job's callback, or,
    when the upload broke, the throw of the fault.  No callback comes before
    the end of that run, and no stage starts after its beginning.  In the run
    ([cleaning]) the scratch directory is always examined, and removed when
    it exists; the archive is examined only when removing the directory did
    not fail: a failed [rm] of the directory ends the series, the archive is
    left alone, and the callback is called all the same. *)
Theorem sync_cleans_up_before_calling_back w :
  ∃ stages r post rest,
    events env the_job w = stages ++ post ++ rest ∧
    cleaning dir archive r post ∧
    aftermath path_join os_tmpDir date mongodbConfig rest ∧
    Forall (λ e, is_callback e = false) (stages ++ post) ∧
    Forall (λ e, starts_stage e = false) (post ++ rest).
Proof.
  destruct (events_job w) as [s err r post Hs Hpost|s fault r post Hs Hpost
                             |s err fault r post r' post' Hs Hpost Hpost'].
  - exists (s ++ [verdict_log mongodbConfig err]), r, post, [EvCallback err].
    split; [by flatten_lists|]. split; [done|]. split; [constructor|].
    pose proof (staged_no_callback _ _ Hs). split; quiet.
  - exists s, r, post, [EvThrow fault].
    split; [done|]. split; [done|]. split; [constructor|].
    pose proof (staged_no_callback _ _ Hs). split; quiet.
  - exists (s ++ [verdict_log mongodbConfig err]), r, post,
      (EvCallback err :: EvFault fault :: post' ++ [EvThrow fault]).
    split; [by flatten_lists|]. split; [done|]. split; [by econstructor|].
    pose proof (staged_no_callback _ _ Hs). split; quiet.
Qed.

Lemma not_in_quiet (P : Event → bool) t a e b :
  Forall (λ x, P x = false) t → t = a ++ e :: b → P e = true → False.
Proof.
  intros Ht -> He. apply Forall_app in Ht as [_ Ht].
  apply Forall_cons in Ht as [? _]. congruence.
Qed.

Lemma staged_faults ending s :
  staged path_join os_tmpDir date mongodbConfig ending s →
  match ending with
  | Broke fault =>
      ∃ s', s = s' ++ [EvFault fault] ∧ Forall (λ e, is_fault e = false) s'
  | _ => Forall (λ e, is_fault e = false) s
  end.
Proof.
  intros Hs. inversion Hs as [| | |pre d c u ? Hpre Hd Hc Hu]; subst; [quiet..|].
  destruct ending as [err|fault|err fault]; [quiet..| |quiet].
  inversion Hu; subst.
  eexists (pre ++ d ++ c ++ [_; _]). split; [by flatten_lists|]. quiet.
Qed.

Lemma cleaning_no_fault r post :
  cleaning dir archive r post → Forall (λ e, is_fault e = false) post.
Proof. intros. quiet. Qed.

(** C2, as the code has it: in the trace of the first job of a process, an
    error that surfaces from the upload outside its callback, instead of
    that callback or once the job has called back, is followed by a run of
    the cleanup functions in series and then by the throw of that same
    error, which nothing catches; no callback comes after it.  This is what
    the domain's listener does wherever it runs: it exits the domain, runs
    the cleanup, and throws.  In the run of the cleanup ([cleaning]) the
    archive is examined only when removing the scratch directory did not
    fail. *)
Theorem late_fault_is_cleaned_up_and_thrown w :
  faults_escalated path_join os_tmpDir date mongodbConfig (events env the_job w) ∧
  ∀ l b fault w',
    ∃ r post,
      cleaning dir archive r post ∧
      trace (run env l b
               (onDomainError path_join os_tmpDir mongodbConfig name fault) w')
      = trace w' ++ post ++ [EvThrow fault].
Proof.
  split; [|intros; apply run_onDomainError].
  intros a fault b Heq. pose proof (events_job w) as Hjob. rewrite Heq in Hjob.
  inversion Hjob as [s err r post Hs Hpost Hes|s f r post Hs Hpost Hes
                    |s err f r post r' post' Hs Hpost Hpost' Hes].
  - apply staged_faults in Hs. pose proof (cleaning_no_fault _ _ Hpost).
    exfalso. eapply (not_in_quiet is_fault); [|exact Hes|done]. quiet.
  - apply staged_faults in Hs as (s' & -> & Hs').
    pose proof (cleaning_no_fault _ _ Hpost) as Hq.
    rewrite <-app_assoc in Hes. cbn [app] in Hes.
    eapply (only_unique is_fault) in Hes as (-> & [= ->] & ->); [..|done|done].
    + exists r, post. repeat split; [done..|]. quiet.
    + done.
    + quiet.
  - apply staged_faults in Hs.
    pose proof (cleaning_no_fault _ _ Hpost) as Hq.
    pose proof (cleaning_no_fault _ _ Hpost') as Hq'.
    replace (s ++ verdict_log mongodbConfig err :: post
               ++ EvCallback err :: EvFault f :: post' ++ [EvThrow f])
      with ((s ++ verdict_log mongodbConfig err :: post ++ [EvCallback err])
              ++ EvFault f :: post' ++ [EvThrow f]) in Hes
      by (by flatten_lists).
    eapply (only_unique is_fault) in Hes as (-> & [= ->] & ->); [..|done|done].
    + exists r', post'. repeat split; [done..|]. quiet.
    + quiet.
    + quiet.
Qed.

Lemma first_failure_here f b e :
  failed f = true → reports f e → first_failure (f :: b) (Some e).
Proof. intros. exists [], f, b. by repeat split. Qed.

Lemma first_failure_cons h t err :
  failed h = false → first_failure t err → first_failure (h :: t) err.
Proof.
  destruct err as [e|]; cbn.
  - intros Hh (a & f & b & -> & Ha & Hf & Hr).
    exists (h :: a), f, b. repeat split; [by constructor|done..].
  - by constructor.
Qed.

Lemma first_failure_app x t err :
  Forall (λ e, failed e = false) x → first_failure t err →
  first_failure (x ++ t) err.
Proof.
  induction 1; intros; [done|]. apply first_failure_cons; auto.
Qed.

Lemma staged_first_failure ending s err :
  staged path_join os_tmpDir date mongodbConfig ending s →
  ending = Ended err ∨ (∃ fault, ending = EndedThenBroke err fault) →
  first_failure s err.
Proof.
  intros Hs Hending.
  inversion Hs as [e pre Hpre|pre d code Hpre Hd Hcode
                  |pre d c code Hpre Hd Hc Hcode|pre d c u ? Hpre Hd Hc Hu];
    subst.
  - assert (err = Some e) as -> by (destruct Hending as [|[]]; congruence).
    inversion Hpre as [? es1 es2 H1 H2|? es1 H1]; subst.
    + inversion H2; subst. descend first_failure_app first_failure_cons. by apply first_failure_here.
    + inversion H1; subst. descend first_failure_app first_failure_cons. by apply first_failure_here.
  - assert (err = Some (MkError ("Mongodump exited with code "
                                   +:+ code_to_string code))) as ->
      by (destruct Hending as [|[]]; congruence).
    inversion Hd as [es Hes]; inversion Hes; subst. descend first_failure_app first_failure_cons.
    apply first_failure_here; [by cbn; rewrite Hcode|by exists "Mongodump"].
  - assert (err = Some (MkError ("Tar exited with code "
                                   +:+ code_to_string code))) as ->
      by (destruct Hending as [|[]]; congruence).
    inversion Hc as [es Hes]; inversion Hes; subst. descend first_failure_app first_failure_cons.
    apply first_failure_here; [by cbn; rewrite Hcode|by exists "Tar"].
  - assert (uploading (Ended err) u) as Hu'.
    { destruct Hending as [->|[fault ->]]; [done|]. by inversion Hu. }
    inversion Hu'; subst.
    + unfold first_failure. quiet.
    + descend first_failure_app first_failure_cons. by apply first_failure_here.
Qed.

Lemma cleaning_no_error_log r post :
  cleaning dir archive r post → Forall (λ e, logs_error e = false) post.
Proof. intros. quiet. Qed.

Lemma callback_after_stages w a err b :
  events env the_job w = a ++ EvCallback err :: b →
  ∃ stages r post,
    a = stages ++ verdict_log mongodbConfig err :: post ∧
    cleaning dir archive r post ∧
    first_failure stages err ∧
    Forall (λ x, is_callback x = false) (a ++ b).
Proof.
  intros Heq. pose proof (events_job w) as Hjob. rewrite Heq in Hjob.
  inversion Hjob as [s err0 r post Hs Hpost Hes|s f r post Hs Hpost Hes
                    |s err0 f r post r' post' Hs Hpost Hpost' Hes].
  - pose proof (staged_no_callback _ _ Hs) as Hq.
    replace (s ++ verdict_log mongodbConfig err0 :: post ++ [EvCallback err0])
      with ((s ++ verdict_log mongodbConfig err0 :: post) ++ [EvCallback err0])
      in Hes by (by flatten_lists).
    eapply (only_unique is_callback) in Hes as (-> & [= ->] & ->);
      [..|done|done]; [|quiet..].
    exists s, r, post. split; [done|]. split; [done|].
    split; [eapply staged_first_failure; eauto|]. quiet.
  - pose proof (staged_no_callback _ _ Hs) as Hq.
    exfalso. eapply (not_in_quiet is_callback); [|exact Hes|done]. quiet.
  - pose proof (staged_no_callback _ _ Hs) as Hq.
    replace (s ++ verdict_log mongodbConfig err0 :: post
               ++ EvCallback err0 :: EvFault f :: post' ++ [EvThrow f])
      with ((s ++ verdict_log mongodbConfig err0 :: post)
              ++ EvCallback err0 :: EvFault f :: post' ++ [EvThrow f]) in Hes
      by (by flatten_lists).
    eapply (only_unique is_callback) in Hes as (-> & [= ->] & ->);
      [..|done|done]; [|quiet..].
    exists s, r, post. split; [done|]. split; [done|].
    split; [eapply staged_first_failure; eauto|]. quiet.
Qed.

(** C3, as the code has it: the error the job's callback is given is decided
    by the stages alone.  It is the error of the first stage that failed,
    and no error when no stage failed; the result of the final cleanup
    reaches neither the callback nor, as an error line, the log. *)
Theorem cleanup_failure_is_not_reported w :
  reports_stages_only path_join os_tmpDir date mongodbConfig (events env the_job w).
Proof.
  intros a err b Heq.
  destruct (callback_after_stages w a err b Heq)
    as (stages & r & post & -> & Hpost & Hfirst & _).
  exists stages, r, post. repeat split; [done..|].
  by eapply cleaning_no_error_log.
Qed.





Lemma eventful_false a :
  Forall (λ x, starts_stage x = false) a →
  Forall (λ x, failed x = false) a →
  Forall (λ x, eventful x = false) a.
Proof.
  intros Hs Hf. induction Hs as [|x a Hx Hs IH]; [constructor|].
  apply Forall_cons in Hf as [Hf Hfs]. constructor; [|by apply IH].
  unfold eventful. by rewrite Hx, Hf.
Qed.

Lemma cleaning_uneventful pre :
  cleaning dir archive None pre → Forall (λ x, eventful x = false) pre.
Proof. intros. quiet. Qed.

Lemma cleaning_failed e pre :
  cleaning dir archive (Some e) pre →
  ∃ pre' command,
    pre = pre' ++ [EvExec command (Some e)] ∧
    Forall (λ x, eventful x = false) pre'.
Proof.
  intros Hpre. inversion Hpre as [? es1 es2 H1 H2|? es1 H1]; subst.
  - inversion H2; subst. eexists (es1 ++ [_; _]), _.
    split; [by flatten_lists|]. quiet.
  - inversion H1; subst. eexists [_; _], _. split; [done|]. quiet.
Qed.

(** When the first thing that happens, stage start or failure, is the
    start of [mongodump], it is not the failure of a shell command. *)
Lemma dump_started_first pre line args cwd rest a command e b :
  cleaning dir archive None pre →
  pre ++ EvLog "info" line :: EvSpawn "mongodump" args cwd :: rest
    = a ++ EvExec command (Some e) :: b →
  Forall (λ x, eventful x = false) a → False.
Proof.
  intros Hpre Heq Ha. pose proof (cleaning_uneventful _ Hpre).
  replace (pre ++ EvLog "info" line :: EvSpawn "mongodump" args cwd :: rest)
    with ((pre ++ [EvLog "info" line]) ++ EvSpawn "mongodump" args cwd :: rest)
    in Heq by (by flatten_lists).
  eapply (first_unique eventful) in Heq as (_ & [=] & _); [..|done|done];
    [quiet|done].
Qed.

(** C6, as the code has it: the removals that open the series are not
    best-effort.  When one of them fails before any stage has started, no
    stage starts: the failure is logged as an error, the cleanup functions
    are run, and the job's callback is given that failure. *)
Theorem failed_preclean_aborts_the_job w :
  unclean_aborts path_join os_tmpDir date mongodbConfig (events env the_job w).
Proof.
  intros a command e b Heq Hstarts Hfailed.
  pose proof (eventful_false a Hstarts Hfailed) as Ha.
  pose proof (events_job w) as Hjob. rewrite Heq in Hjob.
  inversion Hjob as [s err r post Hs Hpost Hes|s f r post Hs Hpost Hes
                    |s err f r post r' post' Hs Hpost Hpost' Hes];
    inversion Hs as [e0 pre Hpre|pre d code Hpre Hd Hcode
                    |pre d c code Hpre Hd Hc Hcode|pre d c u ? Hpre Hd Hc Hu];
    subst.
  all: try (inversion Hd as [es Hchild]; inversion Hchild; subst;
            exfalso; revert Hes; flatten_lists; intros Hes;
            by eapply dump_started_first).
  destruct (cleaning_failed _ _ Hpre) as (pre' & command0 & -> & Hpre').
  revert Hes. flatten_lists. intros Hes.
  eapply (first_unique eventful) in Hes as (-> & [= -> ->] & ->);
    [..|done|done]; [|done..].
  by exists r, post.
Qed.

End Pipeline.

(** ** Exit codes and the errors that carry them *)

Lemma is_zero_spec code : is_zero code = bool_decide (code = Some 0%Z).
Proof. destruct code as [[| |]|]; done. Qed.

Lemma pretty_N_go_not_null x s s' :
  s ≠ "n" +:+ s' → pretty_N_go x s ≠ "n" +:+ s'.
Proof.
  revert s. induction (N.lt_wf_0 x) as [x _ IH]; intros s Hs.
  destruct (decide (x = 0)%N) as [->|Hx]; [by rewrite pretty_N_go_0|].
  rewrite pretty_N_go_step by lia. apply IH.
  { apply N.div_lt; lia. }
  unfold pretty_N_char. by repeat case_match.
Qed.

Lemma pretty_Z_not_null (n : Z) : pretty n ≠ "null".
Proof.
  destruct n as [|p|p]; [done| |done].
  unfold pretty, pretty_Z, pretty, pretty_positive, pretty, pretty_N.
  case_decide; [done|]. by apply (pretty_N_go_not_null _ "" "ull").
Qed.

Lemma code_to_string_inj : Inj (=) (=) code_to_string.
Proof.
  intros [n|] [m|] Heq; cbn in Heq.
  - f_equal. by apply (inj pretty).
  - by destruct (pretty_Z_not_null n).
  - by destruct (pretty_Z_not_null m).
  - done.
Qed.

(** C8: [mongoDump] and [compressDirectory] call back once their child has
    exited, with no error exactly when the exit code is 0, and otherwise with
    an error whose message ends with the exit code; different codes give
    different messages. *)
Theorem children_resolve_by_exit_status
    env l b options directory input output cb w :
  (∃ code es w',
     child "mongodump" (mongoOptions options directory) None code es ∧
     trace w' = trace w
       ++ log_event ("Starting mongodump of " +:+ db options) (Some "info")
       :: es ++ (if bool_decide (code = Some 0%Z)
                 then [log_event "mongodump executed successfully" (Some "info")]
                 else []) ∧
     run env l b (mongoDump options directory (Some cb)) w
     = run env l b
         (cb (if bool_decide (code = Some 0%Z) then None
              else Some (MkError ("Mongodump exited with code "
                                    +:+ code_to_string code)))) w') ∧
  (∃ code es w',
     child "tar" ["-zcf"; output; input] (Some directory) code es ∧
     trace w' = trace w
       ++ log_event ("Starting compression of " +:+ input +:+ " into " +:+ output)
            (Some "info")
       :: es ++ (if bool_decide (code = Some 0%Z)
                 then [log_event "successfully compress directory" (Some "info")]
                 else []) ∧
     run env l b (compressDirectory directory input output (Some cb)) w
     = run env l b
         (cb (if bool_decide (code = Some 0%Z) then None
              else Some (MkError ("Tar exited with code "
                                    +:+ code_to_string code)))) w') ∧
  Inj (=) (=) (λ code, MkError ("Mongodump exited with code " +:+ code_to_string code)) ∧
  Inj (=) (=) (λ code, MkError ("Tar exited with code " +:+ code_to_string code)).
Proof.
  split; [|split; [|split]].
  - destruct (run_mongoDump_any env l b options directory cb w)
      as (code & es & w' & Hc & Ht & _ & Hrun).
    rewrite is_zero_spec in Ht, Hrun. by exists code, es, w'.
  - destruct (run_compressDirectory_any env l b directory input output cb w)
      as (code & es & w' & Hc & Ht & _ & Hrun).
    rewrite is_zero_spec in Ht, Hrun. by exists code, es, w'.
  - intros c1 c2 [= Heq]. by apply (inj (String.app _)), code_to_string_inj in Heq.
  - intros c1 c2 [= Heq]. by apply (inj (String.app _)), code_to_string_inj in Heq.
Qed.

(** ** Removing a path twice *)

(** C7, as the code has it: on a path that does not exist [removeRF] resolves
    with no error and does nothing but look.  Every call resolves; when it
    resolved with no error and the path is one plain word for the shell, the
    path no longer exists, so that a further call finds nothing to do.
    [removeRF] keeps no record of earlier calls: whenever the path exists,
    as after a removal that failed and left it, or after a successful [rm]
    of a path that the shell did not read as one word, it logs the removal
    and runs [rm -rf] again. *)
Theorem removeRF_settles_after_success env l b target w :
  (target ∉ fs w →
   ∀ cb, run env l b (removeRF target (Some cb)) w
         = run env l b (cb None) (emit (EvExists target false) w)) ∧
  (∃ r w1,
     (∀ cb, run env l b (removeRF target (Some cb)) w = run env l b (cb r) w1) ∧
     (r = None → shell_word target = true →
      (target ∉ fs w1) ∧
      (∀ cb, run env l b (removeRF target (Some cb)) w1
             = run env l b (cb None) (emit (EvExists target false) w1)))) ∧
  (target ∈ fs w →
   ∀ cb,
     let asked :=
       emit (log_event ("Removing " +:+ target) (Some "info"))
         (emit (EvExists target true) w) in
     let error := exec_outcome env (trace asked) ("rm -rf " +:+ target) in
     run env l b (removeRF target (Some cb)) w
     = run env l b (cb error)
         (emit (EvExec ("rm -rf " +:+ target) error)
            (set_fs (shell env (trace asked) ("rm -rf " +:+ target) error (fs asked))
               asked))).
Proof.
  assert (∀ w0, target ∉ fs w0 →
            ∀ cb, run env l b (removeRF target (Some cb)) w0
                  = run env l b (cb None) (emit (EvExists target false) w0))
    as Habsent.
  { intros w0 Hw0 cb.
    destruct (run_removeRF env l b target w0)
      as (r & es & w' & _ & _ & _ & Hmissing & _ & ->).
    by destruct (Hmissing Hw0) as [-> ->]. }
  split; [by apply Habsent|]. split.
  - destruct (run_removeRF env l b target w)
      as (r & es & w1 & _ & _ & _ & _ & Hgone & Hrun).
    exists r, w1. split; [done|]. intros Hr Hword. split; [by apply Hgone|].
    by apply Habsent, Hgone.
  - intros Hin cb. cbv zeta. unfold removeRF. cbn [run or_noop].
    rewrite bool_decide_true by done. cbn [negb]. by rewrite run_log.
Qed.

(** ** The options object of [sendToS3] *)


Lemma crashed_emit e w :
  crashed (emit e w) = match e with EvThrow _ => true | _ => false end.
Proof. unfold crashed, emit. cbn. by rewrite last_snoc. Qed.

Section Upload.

Variable env : Env.
Variable path_join : string → string → string.



End Upload.

(** ** The sample job *)

Section SampleRuns.

Import Sample.

(** A username alone is not passed on: the arguments are those of an
    anonymous connection. *)
Lemma lone_username_is_dropped :
  username mongo_user_only = Some "admin" ∧
  password mongo_user_only = None ∧
  mongoOptions mongo_user_only "/tmp/x"
  = ["-h"; "localhost:27017"; "-d"; "app"; "-o"; "/tmp/x"].
Proof. repeat split. Qed.

(** The three exclusions of the sample configuration, in order, after the
    credentials. *)
Example sample_arguments :
  mongoOptions mongo "/tmp/x"
  = ["-h"; "localhost:27017"; "-d"; "app"; "-o"; "/tmp/x";
     "-u"; "admin"; "-p"; "s3cret";
     "--excludeCollection"; "a"; "--excludeCollection"; "b";
     "--excludeCollection"; "c"].
Proof. reflexivity. Qed.

(** When [rm] is denied in the final cleanup of a job whose stages all
    succeeded, the archive is not looked at, nothing more is logged, and the
    callback is told of no error. *)
Lemma postclean_failure_is_lost :
  let t := events denied_at_the_end (backup mongo) clean in
  ∃ stages post,
    t = stages ++ verdict_log mongo None :: post ++ [EvCallback None] ∧
    cleaning dir archive (Some denied) post ∧
    Forall (λ e, failed e = false) stages.
Proof.
  cbv zeta.
  exists (take 16 (events denied_at_the_end (backup mongo) clean)),
    [ EvExists dir true;
      log_event ("Removing " +:+ dir) (Some "info");
      EvExec ("rm -rf " +:+ dir) (Some denied) ].
  split; [by vm_compute|]. split; [apply cleaning_stopped, removal_exec|].
  vm_compute. repeat constructor.
Qed.

(** When [rm] of the dump directory is denied in the final cleanup, the
    callback is called although the removal of the archive was never
    attempted: once the verdict is logged the archive is neither looked at
    nor removed, and it is still there at the end. *)
Lemma postclean_skips_the_archive :
  let t := events denied_at_the_end (backup mongo) clean in
  t !! 16 = Some (verdict_log mongo None) ∧
  drop 17 t
  = [ EvExists dir true;
      log_event ("Removing " +:+ dir) (Some "info");
      EvExec ("rm -rf " +:+ dir) (Some denied);
      EvCallback None ] ∧
  bool_decide
    (archive ∈ fs (run denied_at_the_end None false (backup mongo) clean)) = true.
Proof. cbv zeta. repeat split; by vm_compute. Qed.

(** When the upload breaks and [rm] of the dump directory is denied to the
    domain's listener, the error is thrown although the removal of the
    archive was never attempted: the archive is still there at the end. *)
Lemma broken_upload_leaves_the_archive :
  let t := events broken_and_denied (backup mongo) clean in
  drop 13 t
  = [ EvFault epipe;
      EvExists dir true;
      log_event ("Removing " +:+ dir) (Some "info");
      EvExec ("rm -rf " +:+ dir) (Some denied);
      EvThrow epipe ] ∧
  bool_decide
    (archive ∈ fs (run broken_and_denied None false (backup mongo) clean)) = true.
Proof. cbv zeta. repeat split; by vm_compute. Qed.

(** When [rm] is denied in the removals that open the series, no stage
    starts and the callback is given the error of [rm]. *)
Lemma failed_preclean_stops_the_job :
  let t := events always_denied (backup mongo) stale in
  ∃ pre rest,
    t = pre ++ rest ∧
    cleaning dir archive (Some denied) pre ∧
    Forall (λ e, starts_stage e = false) t ∧
    last t = Some (EvCallback (Some denied)).
Proof.
  cbv zeta.
  exists [ EvExists dir true;
           log_event ("Removing " +:+ dir) (Some "info");
           EvExec ("rm -rf " +:+ dir) (Some denied) ],
    (drop 3 (events always_denied (backup mongo) stale)).
  split; [by vm_compute|]. split; [apply cleaning_stopped, removal_exec|].
  split; [vm_compute; repeat constructor|by vm_compute].
Qed.

(** When [rm] is denied once, a second call of [removeRF] on the same path
    does all the work again, and this time removes the path. *)
Lemma removeRF_again_after_failure :
  let w1 := run denied_once None false (removeRF dir None) stale in
  let w2 := run denied_once None false (removeRF dir None) w1 in
  events denied_once (removeRF dir None) w1
  = [ EvExists dir true;
      log_event ("Removing " +:+ dir) (Some "info");
      EvExec ("rm -rf " +:+ dir) None ] ∧
  bool_decide (dir ∈ fs w1) = true ∧
  bool_decide (dir ∈ fs w2) = false.
Proof. cbv zeta. repeat split; by vm_compute. Qed.

(** A path with a space is not one word for the shell: where the shell splits
    the command line, [rm] succeeds and the path stays, so that the second
    call of [removeRF] does all the work again. *)
Example removeRF_on_a_spaced_path :
  shell_word spaced = false ∧
  events splitting (removeRF spaced (Some (λ _, removeRF spaced (Some Resolve))))
    cluttered
  = [ EvExists spaced true;
      log_event ("Removing " +:+ spaced) (Some "info");
      EvExec ("rm -rf " +:+ spaced) None;
      EvExists spaced true;
      log_event ("Removing " +:+ spaced) (Some "info");
      EvExec ("rm -rf " +:+ spaced) None;
      EvCallback None ] ∧
  bool_decide
    (spaced ∈ fs (run splitting None false (removeRF spaced (Some Resolve)) cluttered))
  = true.
Proof. repeat split; by vm_compute. Qed.

End SampleRuns.

(** ** The theorems at work on the sample job *)

Section SampleWitnesses.

Import Sample.

(** The broken pipe of the sample upload is followed by the second cleanup
    and by the throw of the same error. *)
Lemma broken_pipe_is_thrown :
  ∃ r post,
    cleaning dir archive r post ∧
    drop 25 (events broken_pipe (backup mongo) clean) = post ++ [EvThrow epipe] ∧
    Forall (λ e, is_callback e = false)
      (drop 25 (events broken_pipe (backup mongo) clean)).
Proof.
  apply (proj1 (late_fault_is_cleaned_up_and_thrown
                  broken_pipe join tmp date mongo config clean)
           (take 24 (events broken_pipe (backup mongo) clean)) epipe
           (drop 25 (events broken_pipe (backup mongo) clean))).
  by vm_compute.
Defined.

(** The denied [rm] of the final cleanup leaves the callback without an
    error. *)
Lemma denied_cleanup_is_not_reported :
  ∃ stages r post,
    take 20 (events denied_at_the_end (backup mongo) clean)
      = stages ++ verdict_log mongo None :: post ∧
    cleaning dir archive r post ∧
    first_failure stages None ∧
    Forall (λ x, logs_error x = false) post.
Proof.
  apply (cleanup_failure_is_not_reported
           denied_at_the_end join tmp date mongo config clean
           (take 20 (events denied_at_the_end (backup mongo) clean)) None []).
  by vm_compute.
Defined.


(** The denied [rm] of the opening removals is logged, the cleanup is run,
    and the callback is given the error. *)
Lemma denied_preclean_is_reported :
  ∃ r post,
    cleaning dir archive r post ∧
    drop 3 (events always_denied (backup mongo) stale)
      = verdict_log mongo (Some denied) :: post ++ [EvCallback (Some denied)].
Proof.
  apply (failed_preclean_aborts_the_job
           always_denied join tmp date mongo config stale
           (take 2 (events always_denied (backup mongo) stale))
           ("rm -rf " +:+ dir) denied
           (drop 3 (events always_denied (backup mongo) stale))).
  - by vm_compute.
  - vm_compute. repeat constructor.
  - vm_compute. repeat constructor.
Defined.

(** Nothing is left over in the clean world: [removeRF] looks and resolves. *)
Lemma removeRF_on_missing_directory :
  run fine None false (removeRF dir (Some Resolve)) clean
  = run fine None false (Resolve None) (emit (EvExists dir false) clean).
Proof.
  apply (proj1 (removeRF_settles_after_success fine None false dir clean)).
  apply not_elem_of_empty.
Defined.

End SampleWitnesses.
(** ** The logger *)

Lemma string_app_cons a s t : String a s +:+ t = String a (s +:+ t).
Proof. done. Qed.

Lemma string_app_nil_l s : "" +:+ s = s.
Proof. done. Qed.

Lemma string_app_assoc s t u : (s +:+ t) +:+ u = s +:+ (t +:+ u).
Proof. induction s as [|a s IH]; [done|]. by rewrite !string_app_cons, IH. Qed.

Lemma strip_eol_keep c s :
  c ≠ LF → c ≠ CR → strip_eol (String c s) = String c (strip_eol s).
Proof.
  intros Hlf Hcr. destruct s as [|b [|d s]]; cbn [strip_eol].
  - case_bool_decide as H; [by destruct H|done].
  - case_bool_decide as H; [by destruct H|done].
  - done.
Qed.

(** What follows a character that is no line terminator is stripped on its
    own. *)
Lemma strip_eol_app_keep p c s :
  c ≠ LF → c ≠ CR → strip_eol (p +:+ String c s) = p +:+ String c (strip_eol s).
Proof.
  intros Hlf Hcr. induction p as [|a p IH]; [by apply strip_eol_keep|].
  change (strip_eol (String a (p +:+ String c s))
          = String a (p +:+ String c (strip_eol s))).
  rewrite <-IH. clear IH.
  destruct p as [|b p].
  - change ("" +:+ String c s) with (String c s).
    destruct s as [|d s]; [|done].
    cbn [strip_eol]. case_bool_decide as H; [by destruct H|done].
  - destruct p as [|d p]; done.
Qed.

Lemma strip_eol_cons a s :
  (∃ b c r, s = String b (String c r)) →
  strip_eol (String a s) = String a (strip_eol s).
Proof. by intros (b & c & r & ->). Qed.

Lemma long_app s t :
  (∃ b c r, t = String b (String c r)) → ∃ b c r, s +:+ t = String b (String c r).
Proof. intros (b & c & r & ->). destruct s as [|x [|y s]]; simpl; eauto. Qed.

Lemma strip_eol_crlf s : strip_eol (s +:+ String CR (String LF "")) = s.
Proof.
  induction s as [|a s IH]; [done|]. rewrite string_app_cons.
  rewrite strip_eol_cons by (apply long_app; eauto). by rewrite IH.
Qed.

Lemma strip_eol_cr s : strip_eol (s +:+ String CR "") = s.
Proof.
  induction s as [|a s IH]; [done|]. rewrite string_app_cons.
  destruct s as [|b s].
  - simpl. case_bool_decide as H; [|done]. by destruct H.
  - rewrite strip_eol_cons; [by rewrite IH|]. simpl. destruct s; simpl; eauto.
Qed.

Lemma strip_eol_lf s :
  last_char s ≠ Some CR → strip_eol (s +:+ String LF "") = s.
Proof.
  induction s as [|a s IH]; [done|]. intros Hlast. rewrite string_app_cons.
  destruct s as [|b s].
  - simpl. case_bool_decide as H; [|done]. destruct H as [-> _]. done.
  - rewrite strip_eol_cons; [rewrite IH; [done|]|].
    + by destruct s.
    + simpl. destruct s; simpl; eauto.
Qed.

Lemma strip_eol_none s :
  last_char s ≠ Some LF → last_char s ≠ Some CR → strip_eol s = s.
Proof.
  induction s as [|a s IH]; [done|]. intros Hlf Hcr.
  destruct s as [|b s].
  - simpl. case_bool_decide as H; [|done]. destruct H as [->| ->]; done.
  - destruct s as [|c s].
    + cbn [last_char] in Hlf, Hcr. cbn [strip_eol].
      rewrite (bool_decide_false (a = CR ∧ b = LF)) by (by intros [_ ->]).
      rewrite bool_decide_false by (by intros [->| ->]). done.
    + rewrite strip_eol_cons by eauto. rewrite IH; done.
Qed.

(** X1: for the tags the program uses ([info], [warn], [error], or none,
    which is [info]), [log] records the tag and the line made of the tag in
    brackets, a space and the message, from which one line terminator at the
    very end is dropped; the bracketed tag itself is never touched. *)
Theorem log_records_tagged_line env l b message tag k w :
  or_else tag "info" ∈ ["error"; "warn"; "info"] →
  run env l b (log message tag k) w
  = run env l b k
      (emit (EvLog (or_else tag "info")
               ("[" +:+ or_else tag "info" +:+ "] " +:+ strip_eol message)) w).
Proof.
  intros _. unfold log. cbn [run]. do 3 f_equal.
  etrans; [apply (strip_eol_app_keep ("[" +:+ or_else tag "info") _
                    (String _ message)); done|].
  by rewrite strip_eol_keep.
Qed.

(** X2: the pattern [/(\n|\r|\r\n)$/] of [log] drops exactly one line
    terminator at the very end of the line: a final CR LF, a final CR, or a
    final LF that no CR precedes; a line that ends with neither is left as it
    is. *)
Theorem strip_eol_drops_one_terminator s :
  strip_eol (s +:+ String CR (String LF "")) = s ∧
  strip_eol (s +:+ String CR "") = s ∧
  (last_char s ≠ Some CR → strip_eol (s +:+ String LF "") = s) ∧
  (last_char s ≠ Some LF → last_char s ≠ Some CR → strip_eol s = s).
Proof.
  split; [apply strip_eol_crlf|]. split; [apply strip_eol_cr|].
  split; [apply strip_eol_lf|apply strip_eol_none].
Qed.

(** ** The name of the archive *)

Lemma occurs_app c s t : occurs c (s +:+ t) = occurs c s || occurs c t.
Proof.
  induction s as [|a s IH]; [done|].
  rewrite string_app_cons. cbn [occurs]. by rewrite IH, orb_assoc.
Qed.

(** A string is cut in one way only at a character that its first part does
    not have. *)
Lemma split_at c a a' r r' :
  occurs c a = false → occurs c a' = false →
  a +:+ String c r = a' +:+ String c r' → a = a' ∧ r = r'.
Proof.
  revert a'. induction a as [|x a IH]; intros [|y a'] Ha Ha' Heq;
    cbn in Ha, Ha', Heq.
  - by injection Heq as ->.
  - injection Heq as <- _. by rewrite bool_decide_true in Ha'.
  - injection Heq as -> _. by rewrite bool_decide_true in Ha.
  - injection Heq as -> Heq.
    apply orb_false_iff in Ha as [_ Ha]. apply orb_false_iff in Ha' as [_ Ha'].
    by destruct (IH a' Ha Ha' Heq) as [-> ->].
Qed.

Lemma occurs_pretty_N_go c x s :
  occurs c "-0123456789" = false → occurs c (pretty_N_go x s) = occurs c s.
Proof.
  intros Hc. revert s. induction (N.lt_wf_0 x) as [x _ IH]; intros s.
  destruct (decide (x = 0)%N) as [->|Hx]; [by rewrite pretty_N_go_0|].
  rewrite pretty_N_go_step by lia. rewrite IH by (apply N.div_lt; lia).
  cbn [occurs]. rewrite bool_decide_false; [done|].
  intros <-. revert Hc. unfold pretty_N_char. by repeat case_match.
Qed.

(** A number is written with digits and a sign only. *)
Lemma occurs_pretty_Z c (n : Z) :
  occurs c "-0123456789" = false → occurs c (pretty n) = false.
Proof.
  intros Hc.
  assert (∀ p : positive, occurs c (pretty (Npos p)) = false) as Hpos.
  { intros p. unfold pretty, pretty_N.
    case_decide; [done|]. by rewrite occurs_pretty_N_go. }
  destruct n as [|p|p]; unfold pretty, pretty_Z.
  - revert Hc. cbn [occurs]. intros Hc.
    repeat (apply orb_false_iff in Hc as [? Hc]). cbn. by rewrite orb_false_r.
  - apply Hpos.
  - rewrite occurs_app. change (pretty p) with (pretty (Npos p)).
    rewrite Hpos. cbn [occurs] in *.
    apply orb_false_iff in Hc as [-> _]. done.
Qed.

Lemma getArchiveName_inj databaseName :
  Inj (=) (=) (λ date, getArchiveName date databaseName).
Proof.
  intros [y1 m1 d1 t1] [y2 m2 d2 t2]. unfold getArchiveName. cbn.
  intros Heq. rewrite !string_app_assoc in Heq.
  apply (inj (String.app _)) in Heq.
  rewrite !string_app_cons, !string_app_nil_l in Heq.
  injection Heq as Heq.
  apply split_at in Heq as [Hy Heq]; [|by apply occurs_pretty_Z..].
  apply split_at in Heq as [Hm Heq]; [|by apply occurs_pretty_Z..].
  apply split_at in Heq as [Hd Heq]; [|by apply occurs_pretty_Z..].
  apply split_at in Heq as [Ht _]; [|by apply occurs_pretty_Z..].
  apply (inj pretty) in Hy, Hm, Hd, Ht. f_equal; lia.
Qed.

(** X3: the archives of one database made at different dates have different
    names: the name tells the year, the month, the day and the time apart. *)
Theorem getArchiveName_tells_dates_apart date1 date2 databaseName :
  date1 ≠ date2 →
  getArchiveName date1 databaseName ≠ getArchiveName date2 databaseName.
Proof. intros Hne Heq. by apply Hne, (getArchiveName_inj databaseName). Qed.

(** ** More on the argument list of [mongodump] *)

(** X4: the argument list has the pair [--authenticationDatabase name]
    exactly when the options name an authentication database that is not the
    empty string, and it has it once. *)
Theorem mongoOptions_authenticationDatabase options directory :
  pairs_with ["--authenticationDatabase"] (mongoOptions options directory) =
    match authenticationDatabase options with
    | Some name =>
        if bool_decide (name ≠ "") then [("--authenticationDatabase", name)] else []
    | None => []
    end.
Proof.
  unfold pairs_with. rewrite mongoOptions_pairs, pairs_unpairs.
  rewrite !filter_app, filter_exclusions.
  destruct (truthy (username options) && truthy (password options));
    destruct (authenticationDatabase options) as [[|a name]|]; done.
Qed.

(** X5: the argument list always starts with the host and port, the database
    and the output directory, in that order; it is made of flag/value pairs
    throughout; and no flag but the seven of [mongoDump] is ever passed. *)
Theorem mongoOptions_connection_first options directory :
  take 6 (mongoOptions options directory)
  = [ "-h"; host options +:+ ":" +:+ pretty (port options);
      "-d"; db options; "-o"; directory ] ∧
  unpairs (pairs (mongoOptions options directory)) = mongoOptions options directory ∧
  Forall (λ p : string * string,
            p.1 ∈ [ "-h"; "-d"; "-o"; "-u"; "-p";
                    "--authenticationDatabase"; "--excludeCollection" ])
    (pairs (mongoOptions options directory)).
Proof.
  rewrite mongoOptions_pairs, pairs_unpairs. split; [done|]. split; [done|].
  repeat apply Forall_cons_2; try (cbn; set_solver).
  repeat apply Forall_app_2.
  - destruct (_ && _); repeat constructor; cbn; set_solver.
  - destruct (truthy _); repeat constructor; cbn; set_solver.
  - apply Forall_fmap, Forall_true. intros c. cbn. set_solver.
Qed.

(** ** The output of the children *)

Lemma extend_emit e es w : extend es (emit e w) = extend (e :: es) w.
Proof. unfold extend, emit. cbn. by rewrite <-app_assoc. Qed.

Section Children.

Variable env : Env.

(** The listeners log every chunk of a stream they listen to, in the order
    the chunks arrive, and nothing else. *)
Lemma run_forwarded l b (out err : option (option string)) chunks w :
  fold_left
    (λ w (chunk : Stream * string),
       match chunk.1, (λ tag data, log data tag Stop) <$> out,
             (λ tag data, log data tag Stop) <$> err with
       | Stdout, Some h, _ | Stderr, _, Some h => run env l b (h chunk.2) w
       | _, _, _ => w
       end)
    chunks w
  = extend (forwarded out err chunks) w.
Proof.
  revert w. induction chunks as [|[stream data] chunks IH]; intros w.
  - destruct w. unfold extend. cbn. by rewrite app_nil_r.
  - cbn [fold_left]. rewrite IH.
    destruct stream, out as [tag|], err as [tag'|]; cbn; by rewrite ?extend_emit.
Qed.

(** A spawned child, from [spawn] to the ['exit'] listener. *)
Lemma run_spawned l b command args cwd (out err : option (option string)) k w :
  let started := emit (EvSpawn command args cwd) w in
  let r := spawn_outcome env (trace started) command args cwd in
  ∃ w',
    trace w' = trace started ++ forwarded out err (output r)
                 ++ [EvExit command (exit_code r)] ∧
    fs w' = fs w ∪ list_to_set (created r) ∧
    heap w' = heap w ∧
    run env l b
      (Spawn command args cwd
         ((λ tag data, log data tag Stop) <$> out)
         ((λ tag data, log data tag Stop) <$> err) k) w
    = run env l b (k (exit_code r)) w'.
Proof.
  cbv zeta. cbn [run]. rewrite run_forwarded.
  eexists. split; [|split; [|split; [|reflexivity]]]; [|done..].
  cbn. by rewrite <-!app_assoc.
Qed.

(** X6: [mongoDump] logs the output of [mongodump] that reaches its
    listeners before the child's ['exit'] event (what Node delivers later is
    left out of [output]): every chunk of the standard output as an [info]
    line and every chunk of the standard error as an [error] line, in the
    order they arrive, and nothing else; at the exit it calls back, once, by
    the exit code.  The paths the child created are there, and nothing else
    has changed. *)
Theorem mongoDump_forwards_output l b options directory cb w :
  let started :=
    emit (EvSpawn "mongodump" (mongoOptions options directory) None)
      (emit (log_event ("Starting mongodump of " +:+ db options) (Some "info")) w) in
  let r :=
    spawn_outcome env (trace started) "mongodump"
      (mongoOptions options directory) None in
  ∃ w',
    trace w'
    = trace started
        ++ ((λ chunk : Stream * string,
               log_event chunk.2
                 (match chunk.1 with Stdout => None | Stderr => Some "error" end))
            <$> output r)
        ++ EvExit "mongodump" (exit_code r)
        :: (if is_zero (exit_code r)
            then [log_event "mongodump executed successfully" (Some "info")]
            else []) ∧
    fs w' = fs w ∪ list_to_set (created r) ∧
    heap w' = heap w ∧
    run env l b (mongoDump options directory (Some cb)) w
    = run env l b
        (cb (if is_zero (exit_code r) then None
             else Some (MkError ("Mongodump exited with code "
                                   +:+ code_to_string (exit_code r))))) w'.
Proof.
  cbv zeta. unfold mongoDump. rewrite run_log. cbn [or_noop].
  edestruct (run_spawned l b "mongodump" (mongoOptions options directory) None
               (Some None) (Some (Some "error")))
    as (w1 & Ht & Hf & Hh & ->).
  assert (∀ chunks,
    forwarded (Some None) (Some (Some "error")) chunks
    = (λ chunk : Stream * string,
         log_event chunk.2
           (match chunk.1 with Stdout => None | Stderr => Some "error" end))
        <$> chunks) as Hall.
  { induction chunks as [|[[] data] chunks IH]; [done|..];
      unfold forwarded in *; cbn; first [done|by rewrite IH]. }
  rewrite Hall in Ht.
  destruct (is_zero (exit_code _)).
  - rewrite run_log. eexists. split; [|split; [|split; [|reflexivity]]]; [|done..].
    cbn [trace emit]. rewrite Ht. cbn [trace emit]. by rewrite <-?app_assoc.
  - exists w1. split; [|done]. rewrite Ht. by rewrite <-?app_assoc.
Qed.

(** X7: [compressDirectory] listens to the standard error of [tar] only.  Of
    the output that arrives before the child's ['exit'] event (what Node
    delivers later is left out of [output]), every chunk of the standard
    error is logged as an [error] line, in the order they arrive, and the
    chunks of the standard output are not logged.  [tar] runs in the given
    directory. *)
Theorem compressDirectory_forwards_errors l b directory input output_ cb w :
  let started :=
    emit (EvSpawn "tar" ["-zcf"; output_; input] (Some directory))
      (emit (log_event ("Starting compression of " +:+ input
                          +:+ " into " +:+ output_) (Some "info")) w) in
  let r :=
    spawn_outcome env (trace started) "tar" ["-zcf"; output_; input]
      (Some directory) in
  ∃ w',
    trace w'
    = trace started
        ++ omap (λ chunk : Stream * string,
                   match chunk.1 with
                   | Stderr => Some (log_event chunk.2 (Some "error"))
                   | Stdout => None
                   end) (output r)
        ++ EvExit "tar" (exit_code r)
        :: (if is_zero (exit_code r)
            then [log_event "successfully compress directory" (Some "info")]
            else []) ∧
    fs w' = fs w ∪ list_to_set (created r) ∧
    heap w' = heap w ∧
    run env l b (compressDirectory directory input output_ (Some cb)) w
    = run env l b
        (cb (if is_zero (exit_code r) then None
             else Some (MkError ("Tar exited with code "
                                   +:+ code_to_string (exit_code r))))) w'.
Proof.
  cbv zeta. unfold compressDirectory. rewrite run_log. cbn [or_noop].
  edestruct (run_spawned l b "tar" ["-zcf"; output_; input] (Some directory)
               None (Some (Some "error")))
    as (w1 & Ht & Hf & Hh & ->).
  assert (∀ chunks,
    forwarded None (Some (Some "error")) chunks
    = omap (λ chunk : Stream * string,
              match chunk.1 with
              | Stderr => Some (log_event chunk.2 (Some "error"))
              | Stdout => None
              end) chunks) as Herr.
  { induction chunks as [|[[] data] chunks IH]; [done|..];
      unfold forwarded in *; cbn; first [done|by rewrite IH]. }
  rewrite Herr in Ht.
  destruct (is_zero (exit_code _)).
  - rewrite run_log. eexists. split; [|split; [|split; [|reflexivity]]]; [|done..].
    cbn [trace emit]. rewrite Ht. cbn [trace emit]. by rewrite <-?app_assoc.
  - exists w1. split; [|done]. rewrite Ht. by rewrite <-?app_assoc.
Qed.

End Children.

(** ** The upload *)

Section Uploading.

Variable env : Env.
Variable path_join : string → string → string.

(** X8: one call of [sendToS3] with options that [knox.createClient] takes
    (a key, a secret and a plain bucket name).  It asks for one upload: of
    the file
    [path.join(directory, target)], under the destination of the options (or
    ["/"]) joined with the target, in parts of 10485760 bytes with at most 2
    retries, with the encryption header exactly when the options ask for it,
    and with a client made from the options without their destination.  The
    callback is given the error of the upload, which is not logged; a success
    is logged in two lines.  An error thrown from the upload outside a domain
    is thrown on.  Files are left alone, and in the store only the
    destination of the options goes. *)
Theorem sendToS3_uploads_once options directory target w :
  createClient_accepts (heap w !!! options) = true →
  let o := heap w !!! options in
  let req :=
    {| client := delete_destination o;
       objectName := path_join (or_else (destination o) "/") target;
       headers := if encrypt o then [("x-amz-server-side-encryption", "AES256")]
                  else [];
       file := path_join directory target;
       partSize := 10485760;
       maxRetries := 2 |} in
  let asked :=
    [ log_event ("Attemping to upload " +:+ target +:+ " to the "
                   +:+ bucket o +:+ " s3 bucket") None;
      EvUpload req ] in
  let answered (err : option Error) body :=
    EvUploadDone err ::
    match err with
    | Some _ => []
    | None => [ log_event "Successfully uploaded to s3" None; log_event body None ]
    end in
  let send := sendToS3 path_join options directory target (Some Resolve) in
  events env send w
  = asked ++
    match upload_outcome env (trace w ++ asked) req with
    | Responded err body => answered err body ++ [EvCallback err]
    | Faulted fault => [EvFault fault; EvThrow fault]
    | RespondedThenFaulted err body fault =>
        answered err body ++ [EvCallback err; EvFault fault; EvThrow fault]
    end ∧
  fs (run env None false send w) = fs w ∧
  heap (run env None false send w) = alter delete_destination options (heap w).
Proof.
  intros _. cbv zeta.
  unfold events, sendToS3. cbn [run or_noop]. rewrite run_log. cbn [run].
  assert (alter delete_destination options (heap w) !!! options
          = delete_destination (heap w !!! options)) as Hclient.
  { rewrite lookup_total_alter_eq, lookup_total_alt. by destruct (heap w !! options). }
  cbn [heap set_heap emit trace fs]. rewrite Hclient. cbn [encrypt bucket delete_destination].
  rewrite <-!app_assoc. cbn [app].
  match goal with |- context [upload_outcome env ?t ?r] =>
    destruct (upload_outcome env t r) as [[e|] body|fault|[e|] body fault]
  end; rewrite ?run_log; cbn [run raise]; rewrite ?crashed_emit;
    cbn [run raise trace emit set_heap fs heap];
    (split; [|done]); flatten_lists; by rewrite drop_app_length.
Qed.

End Uploading.

(** ** What a job leaves behind *)

Lemma rm_rf_subseteq target f : rm_rf target f ⊆ f.
Proof. unfold rm_rf. intros x. rewrite elem_of_filter. tauto. Qed.

Lemma existsb_quiet {A} (P : A → bool) es :
  Forall (λ e, P e = false) es → existsb P es = false.
Proof. induction 1 as [|e es He _ IH]; [done|]. cbn. by rewrite He, IH. Qed.

Lemma existsb_seen {A} (P : A → bool) es :
  Exists (λ e, P e = true) es → existsb P es = true.
Proof.
  induction 1 as [e es He|e es _ IH]; cbn; [by rewrite He|].
  rewrite IH. by destruct (P e).
Qed.

Section Leaving.

Variable env : Env.

(** [removeRF] fails only when [rm] does; when it resolves without error,
    on a path that is one word for the shell, it has only removed, and the
    path is gone. *)
Lemma run_removeRF_files l b target w :
  ∃ r w',
    (r = None → shell_word target = true →
     fs w' ⊆ fs w ∧ target ∉ fs w') ∧
    ((∀ t command, exec_outcome env t command = None) → r = None) ∧
    ∀ cb, run env l b (removeRF target (Some cb)) w = run env l b (cb r) w'.
Proof.
  unfold removeRF. cbn [run or_noop].
  destruct (decide (target ∈ fs w)) as [Hin|Hout].
  - rewrite bool_decide_true by done. cbn [negb].
    eexists _, _. split; [|split].
    3: intros cb; rewrite run_log; reflexivity.
    + intros -> Hword. cbn [fs emit set_fs]. rewrite shell_rm_rf by done.
      split; [apply rm_rf_subseteq|apply not_elem_of_rm_rf].
    + intros Hfine. apply Hfine.
  - rewrite bool_decide_false by done. cbn [negb].
    exists None, (emit (EvExists target false) w). done.
Qed.

Variable path_join : string → string → string.
Variable os_tmpDir : string.
Variable date : Date.
Variable mongodbConfig : MongoConfig.
Variable s3Config : loc.

Local Abbreviation tmp := (tmpDir path_join os_tmpDir).
Local Abbreviation name := (getArchiveName date (db mongodbConfig)).
Local Abbreviation dir := (backupDir path_join os_tmpDir mongodbConfig).
Local Abbreviation archive := (archivePath path_join os_tmpDir name).
Local Abbreviation cleanupFns :=
  (tmpDirCleanupFns path_join os_tmpDir mongodbConfig name).
Local Abbreviation the_job :=
  (sync path_join os_tmpDir date mongodbConfig s3Config (Some Resolve)).

(** The request [sendToS3] makes of the archive, from the options [o]. *)
Local Abbreviation request o :=
  {| client := delete_destination o;
     objectName := path_join (or_else (destination o) "/") name;
     headers := if encrypt o then [("x-amz-server-side-encryption", "AES256")]
                else [];
     file := archive;
     partSize := 10485760;
     maxRetries := 2 |}.

Lemma uploads_nothing req es :
  Forall (λ e, starts_upload e = false) es → Forall (uploads req) es.
Proof. intros Hes. apply (Forall_impl _ _ _ Hes). by intros []. Qed.

(** What comes after the cleanup does not depend on how the cleanup went. *)
Lemma run_cleanup_last l b k w :
  run env l b (series cleanupFns (λ _, k)) w
  = run env l b k (run env l b (series cleanupFns (λ _, Stop)) w).
Proof.
  unfold tmpDirCleanupFns. cbn [series].
  destruct (run_removeRF_files l b dir w) as (r1 & w1 & _ & _ & Hrun1).
  rewrite !Hrun1. destruct r1 as [e|]; [done|].
  destruct (run_removeRF_files l b archive w1) as (r2 & w2 & _ & _ & Hrun2).
  rewrite !Hrun2. by destruct r2.
Qed.

(** When [rm] works and the two paths are plain words for the shell, a run
    of the cleanup leaves neither the dump directory nor the archive. *)
Lemma run_cleanup_files l b w :
  shell_word dir = true → shell_word archive = true →
  (∀ t command, exec_outcome env t command = None) →
  (dir ∉ fs (run env l b (series cleanupFns (λ _, Stop)) w)) ∧
  (archive ∉ fs (run env l b (series cleanupFns (λ _, Stop)) w)).
Proof.
  intros Hdir Harchive Hfine. unfold tmpDirCleanupFns. cbn [series].
  destruct (run_removeRF_files l b dir w) as (r1 & w1 & Hgone1 & Hr1 & ->).
  rewrite (Hr1 Hfine) in *. destruct (Hgone1 eq_refl Hdir) as [_ Hout1].
  destruct (run_removeRF_files l b archive w1) as (r2 & w2 & Hgone2 & Hr2 & ->).
  rewrite (Hr2 Hfine) in *. destruct (Hgone2 eq_refl Harchive) as [Hsub Hout2].
  cbn [run]. split; [|done]. intros Hin. by apply Hout1, Hsub.
Qed.

(** Every job ends with a run of the cleanup followed by one last event.
    The store is as it was unless the upload was asked for, and then the
    options have lost their destination. *)
Lemma sync_world w :
  ∃ wc l b last es,
    run env None false the_job w
    = emit last (run env l b (series cleanupFns (λ _, Stop)) wc) ∧
    trace wc = trace w ++ es ∧
    starts_upload last = false ∧
    Forall (uploads (request (heap w !!! s3Config))) es ∧
    ((heap wc = heap w ∧ Forall (λ e, starts_upload e = false) es) ∨
     (heap wc = alter delete_destination s3Config (heap w) ∧
      Exists (λ e, starts_upload e = true) es)).
Proof.
  unfold sync. cbn [run or_noop].
  match goal with |- context [run env ?l false (series _ ?fin) w] =>
    set (L := l); set (verdict := fin) end.
  assert (∀ b err w0,
    run env L b (verdict err) w0
    = emit (EvCallback err)
        (run env L b (series cleanupFns (λ _, Stop))
           (emit (verdict_log mongodbConfig err) w0))) as Hverdict.
  { intros b err w0. subst verdict. cbv beta.
    destruct err as [e|]; rewrite run_log, run_cleanup_last; done. }
  clearbody verdict.
  edestruct (run_cleanup_then env path_join os_tmpDir date mongodbConfig L false)
    as (r & pre & w1 & Hpre & Ht1 & Hh1 & ->).
  destruct r as [e|].
  { rewrite Hverdict. eexists _, _, _, _, (pre ++ [_]).
    split; [reflexivity|]. split; [cbn; by rewrite Ht1, <-app_assoc|].
    split; [done|]. split; [apply uploads_nothing; quiet|].
    left. split; [done|]. quiet. }
  cbn [series].
  edestruct (run_mongoDump env path_join os_tmpDir mongodbConfig L false)
    as (code & d & w2 & Hd & Ht2 & Hh2 & ->).
  destruct (is_zero code) eqn:Hcode; cycle 1.
  { rewrite Hverdict. eexists _, _, _, _, (pre ++ d ++ [_]).
    split; [reflexivity|]. split; [cbn; by rewrite Ht2, Ht1, <-!app_assoc|].
    split; [done|]. split; [apply uploads_nothing; quiet|].
    left. split; [cbn; congruence|]. quiet. }
  edestruct (run_compressDirectory env path_join os_tmpDir date mongodbConfig L false)
    as (code' & c & w3 & Hc & Ht3 & Hh3 & ->).
  destruct (is_zero code') eqn:Hcode'; cycle 1.
  { rewrite Hverdict. eexists _, _, _, _, (pre ++ d ++ c ++ [_]).
    split; [reflexivity|]. split; [cbn; by rewrite Ht3, Ht2, Ht1, <-!app_assoc|].
    split; [done|]. split; [apply uploads_nothing; quiet|].
    left. split; [cbn; congruence|]. quiet. }
  unfold d_bind, sendToS3. cbn [run or_noop]. rewrite run_log. cbn [run].
  assert (heap w3 = heap w) as Hw3 by congruence.
  assert (alter delete_destination s3Config (heap w3) !!! s3Config
          = delete_destination (heap w !!! s3Config)) as Hclient.
  { rewrite Hw3, lookup_total_alter_eq, lookup_total_alt.
    by destruct (heap w !! s3Config). }
  cbn [heap set_heap]. rewrite !Hclient, Hw3.
  cbn [encrypt bucket delete_destination].
  assert (∀ u, Forall (uploads (request (heap w !!! s3Config))) u →
               Forall (uploads (request (heap w !!! s3Config)))
                 (pre ++ d ++ c ++ u)) as Hreq.
  { intros u Hu. repeat apply Forall_app_2; [apply uploads_nothing; quiet..|done]. }
  assert (∀ u, Exists (λ e, starts_upload e = true)
                 (pre ++ d ++ c ++ u) ↔ Exists (λ e, starts_upload e = true) u)
    as Hsent.
  { intros u. rewrite !Exists_app. split; [|tauto].
    intros [H|[H|[H|H]]]; [exfalso..|done]; apply Exists_exists in H as (x & Hx & Hup).
    - assert (Forall (λ e, starts_upload e = false) pre) as Hq by quiet.
      rewrite Forall_forall in Hq. specialize (Hq x Hx). congruence.
    - assert (Forall (λ e, starts_upload e = false) d) as Hq by quiet.
      rewrite Forall_forall in Hq. specialize (Hq x Hx). congruence.
    - assert (Forall (λ e, starts_upload e = false) c) as Hq by quiet.
      rewrite Forall_forall in Hq. specialize (Hq x Hx). congruence. }
  assert (∀ l b fault w0,
    run env l b (onDomainError path_join os_tmpDir mongodbConfig name fault) w0
    = emit (EvThrow fault)
        (run env l false (series cleanupFns (λ _, Stop)) w0)) as Hbroke.
  { intros l b fault w0. unfold onDomainError. cbn [run].
    rewrite run_cleanup_last. cbn [run raise]. by destruct l. }
  match goal with |- context [upload_outcome env ?t ?req] =>
    destruct (upload_outcome env t req) as [err body|fault|err body fault] end.
  - destruct err as [e|]; rewrite ?run_log; rewrite Hverdict.
    + eexists _, _, _, _, (pre ++ d ++ c ++ [_; _; _; _]).
      split; [reflexivity|].
      split; [cbn; by rewrite Ht3, Ht2, Ht1, <-!app_assoc|].
      split; [done|].
      split; [apply Hreq; repeat apply Forall_cons_2; try done;
              apply uploads_nothing; quiet|].
      right. split; [cbn; congruence|].
      apply Hsent. apply Exists_cons_tl, Exists_cons_hd. done.
    + eexists _, _, _, _, (pre ++ d ++ c ++ [_; _; _; _; _; _]).
      split; [reflexivity|].
      split; [cbn; by rewrite Ht3, Ht2, Ht1, <-!app_assoc|].
      split; [done|].
      split; [apply Hreq; repeat apply Forall_cons_2; try done;
              apply uploads_nothing; quiet|].
      right. split; [cbn; congruence|].
      apply Hsent. apply Exists_cons_tl, Exists_cons_hd. done.
  - unfold raise, L. rewrite Hbroke.
    eexists _, _, _, _, (pre ++ d ++ c ++ [_; _; _]).
    split; [reflexivity|].
    split; [cbn; by rewrite Ht3, Ht2, Ht1, <-!app_assoc|].
    split; [done|].
    split; [apply Hreq; by repeat apply Forall_cons_2|].
    right. split; [cbn; congruence|].
    apply Hsent. apply Exists_cons_tl, Exists_cons_hd. done.
  - cbv zeta. destruct err as [e|]; rewrite ?run_log; rewrite Hverdict.
    all: match goal with
         | |- context [emit (EvCallback _)
                         (run env ?l0 true (series cleanupFns _) ?w0)] =>
             destruct (run_cleanup env path_join os_tmpDir date mongodbConfig
                         l0 true (λ _, Stop) w0)
               as (r & post & w4 & Hpost & Ht4 & Hh4 & Hrun4)
         end.
    all: cbn [run] in Hrun4; rewrite Hrun4, crashed_emit.
    all: unfold raise, L; rewrite Hbroke.
    + eexists _, _, _, _, (pre ++ d ++ c ++ [_; _; _; _] ++ post ++ [_; _]).
      split; [reflexivity|].
      split; [cbn; rewrite Ht4; cbn; by rewrite Ht3, Ht2, Ht1, <-!app_assoc|].
      split; [done|].
      split; [apply Hreq; repeat apply Forall_cons_2; try done;
              apply Forall_app_2; [apply uploads_nothing; quiet|];
              by repeat apply Forall_cons_2|].
      right. split; [cbn; rewrite Hh4; cbn; congruence|].
      apply Hsent. apply Exists_cons_tl, Exists_cons_hd. done.
    + eexists _, _, _, _, (pre ++ d ++ c ++ [_; _; _; _; _; _] ++ post ++ [_; _]).
      split; [reflexivity|].
      split; [cbn; rewrite Ht4; cbn; by rewrite Ht3, Ht2, Ht1, <-!app_assoc|].
      split; [done|].
      split; [apply Hreq; repeat apply Forall_cons_2; try done;
              apply Forall_app_2; [apply uploads_nothing; quiet|];
              by repeat apply Forall_cons_2|].
      right. split; [cbn; rewrite Hh4; cbn; congruence|].
      apply Hsent. apply Exists_cons_tl, Exists_cons_hd. done.
Qed.

(** X9: in the first job of a process, with children that exit, paths that
    are plain words for the shell and an [rm] that does not fail, a job
    leaves neither its dump directory nor its archive behind, whatever
    [mongodump], [tar] and the upload did: whether they failed, whether the
    upload broke, and whatever the children wrote to the disk. *)
Theorem sync_removes_its_scratch_files w :
  shell_word dir = true → shell_word archive = true →
  (∀ t command, exec_outcome env t command = None) →
  (dir ∉ fs (run env None false the_job w)) ∧
  (archive ∉ fs (run env None false the_job w)).
Proof.
  intros Hdir Harchive Hfine.
  destruct (sync_world w) as (wc & l & b & last & es & -> & _).
  by apply run_cleanup_files.
Qed.

(** X10: with S3 options that [knox.createClient] takes, a job changes the
    caller's options exactly when it gets as far as the upload request: then
    the options have lost their [destination], for good; a job that stops
    earlier leaves the store as it found it. *)
Theorem sync_forgets_destination_once_uploading w :
  createClient_accepts (heap w !!! s3Config) = true →
  heap (run env None false the_job w)
  = if existsb starts_upload (events env the_job w)
    then alter delete_destination s3Config (heap w)
    else heap w.
Proof.
  intros _. unfold events.
  destruct (sync_world w)
    as (wc & l & b & last & es & -> & Ht & Hlast & _ & Hheap).
  destruct (run_cleanup env path_join os_tmpDir date mongodbConfig l b (λ _, Stop) wc)
    as (r & post & w' & Hpost & Ht' & Hh' & Hrun).
  cbn [run] in Hrun. rewrite Hrun. cbn [heap trace emit].
  rewrite Ht', Ht, <-!app_assoc, drop_app_length, !existsb_app. cbn [existsb].
  rewrite Hlast, (existsb_quiet starts_upload post) by quiet.
  rewrite !orb_false_r, Hh'.
  destruct Hheap as [[-> Hes]|[-> Hes]].
  - by rewrite existsb_quiet.
  - by rewrite existsb_seen.
Qed.

(** X11: what a job uploads is the archive it had [tar] write.  Every upload
    request of a job is the one request [sendToS3] makes of the file
    [path.join(tmpDir, archiveName)], [tar] having been run in [tmpDir] with
    [archiveName] as its output: the object name is the destination the
    options had when the job started (or ["/"]) joined with the name of the
    archive, the client is made from those options without the destination,
    and the encryption header is there exactly when they ask for it. *)
Theorem sync_uploads_the_archive w :
  Forall (uploads (request (heap w !!! s3Config))) (events env the_job w).
Proof.
  unfold events.
  destruct (sync_world w) as (wc & l & b & last & es & -> & Ht & Hlast & Hes & _).
  destruct (run_cleanup env path_join os_tmpDir date mongodbConfig l b (λ _, Stop) wc)
    as (r & post & w' & Hpost & Ht' & _ & Hrun).
  cbn [run] in Hrun. rewrite Hrun. cbn [trace emit].
  rewrite Ht', Ht, <-!app_assoc, drop_app_length.
  repeat apply Forall_app_2; [done|apply uploads_nothing; quiet|].
  apply Forall_cons_2; [by destruct last|done].
Qed.

(** X12: the two removals that open the series make room for the job, when
    its two scratch paths are plain words for the shell.  When the removals
    resolve without error, what comes next in the series starts with neither
    the dump directory nor the archive of an earlier run in the way, and with
    no file that was not there before; when one of them fails, the rest of
    the series is skipped and the callback of the series is given the
    error. *)
Theorem opening_removals_make_room l b rest cb w :
  shell_word dir = true → shell_word archive = true →
  ∃ r w1,
    run env l b (series (cleanupFns ++ rest) cb) w
    = match r with
      | Some e => run env l b (cb (Some e)) w1
      | None => run env l b (series rest cb) w1
      end ∧
    (r = None → fs w1 ⊆ fs w ∧ (dir ∉ fs w1) ∧ (archive ∉ fs w1)).
Proof.
  intros Hdir Harchive. unfold tmpDirCleanupFns. cbn [app series].
  destruct (run_removeRF_files l b dir w) as (r1 & w1 & Hgone1 & _ & ->).
  destruct r1 as [e|]; [by exists (Some e), w1|].
  destruct (Hgone1 eq_refl Hdir) as [Hsub1 Hout1].
  destruct (run_removeRF_files l b archive w1) as (r2 & w2 & Hgone2 & _ & ->).
  exists r2, w2. split; [by destruct r2|].
  intros ->. destruct (Hgone2 eq_refl Harchive) as [Hsub2 Hout2].
  split; [by trans (fs w1)|]. split; [|done]. intros Hin. by apply Hout1, Hsub2.
Qed.

End Leaving.

(** ** How a job ends, and what it touches *)

Section Outcome.

Variable env : Env.
Variable path_join : string → string → string.
Variable os_tmpDir : string.
Variable date : Date.
Variable mongodbConfig : MongoConfig.
Variable s3Config : loc.

Local Abbreviation tmp := (tmpDir path_join os_tmpDir).
Local Abbreviation name := (getArchiveName date (db mongodbConfig)).
Local Abbreviation dir := (backupDir path_join os_tmpDir mongodbConfig).
Local Abbreviation archive := (archivePath path_join os_tmpDir name).
Local Abbreviation cleanupFns :=
  (tmpDirCleanupFns path_join os_tmpDir mongodbConfig name).
Local Abbreviation the_job :=
  (sync path_join os_tmpDir date mongodbConfig s3Config (Some Resolve)).
Local Abbreviation dump_args := (mongoOptions mongodbConfig tmp).
Local Abbreviation tar_args := (["-zcf"; name; db mongodbConfig]).

(** X13: every job comes to an end, in one of two ways.  Either the last
    thing it does is to call its callback, for the first and only time, and
    then no error came out of the upload outside its callback; or the last
    thing it does is to throw such an error, which came out before.  Nothing
    is thrown before the end. *)
Theorem sync_ends_with_callback_or_throw w :
  ∃ before last,
    events env the_job w = before ++ [last] ∧
    Forall (λ e, is_throw e = false) before ∧
    ((∃ err, last = EvCallback err ∧
             Forall (λ e, is_callback e = false) before ∧
             Forall (λ e, is_fault e = false) before) ∨
     (∃ fault, last = EvThrow fault ∧ EvFault fault ∈ before)).
Proof.
  destruct (events_job env path_join os_tmpDir date mongodbConfig s3Config w)
    as [s err r post Hs Hpost|s fault r post Hs Hpost
       |s err fault r post r' post' Hs Hpost Hpost'].
  - exists (s ++ verdict_log mongodbConfig err :: post), (EvCallback err).
    split; [by flatten_lists|].
    pose proof (staged_no_callback _ _ _ _ _ _ Hs).
    pose proof (staged_faults _ _ _ _ _ _ Hs) as Hfaults. cbn in Hfaults.
    split; [inversion Hs; subst; quiet|].
    left. exists err. split; [done|]. split; quiet.
  - exists (s ++ post), (EvThrow fault). split; [by flatten_lists|].
    destruct (staged_faults _ _ _ _ _ _ Hs) as (s' & -> & _).
    split; [inversion Hs; subst; quiet|].
    right. exists fault. split; [done|]. set_solver.
  - exists (s ++ verdict_log mongodbConfig err :: post
              ++ EvCallback err :: EvFault fault :: post'), (EvThrow fault).
    split; [by flatten_lists|].
    split; [inversion Hs; subst; quiet|].
    right. exists fault. split; [done|]. set_solver.
Qed.

Lemma uploads_quiet es :
  Forall (λ e, starts_upload e = false) es → length (upload_requests es) = 0.
Proof.
  induction 1 as [|e es He _ IH]; [done|].
  unfold upload_requests in *. by destruct e.
Qed.

Lemma uploads_app a b :
  length (upload_requests (a ++ b))
  = length (upload_requests a) + length (upload_requests b).
Proof. unfold upload_requests. by rewrite omap_app, length_app. Qed.

Lemma logs_within es :
  Forall (λ e, is_log e = true) es → Forall (within_scratch dump_args tar_args tmp dir archive) es.
Proof. intros Hes. apply (Forall_impl _ _ _ Hes). by intros []. Qed.

Lemma cleaning_within r es :
  cleaning dir archive r es → Forall (within_scratch dump_args tar_args tmp dir archive) es.
Proof.
  assert (∀ r es, removal dir r es → Forall (within_scratch dump_args tar_args tmp dir archive) es)
    as Hdir.
  { intros ?? H. inversion H; subst;
      repeat apply Forall_cons_2; try apply Forall_nil_2; cbn; auto. }
  assert (∀ r es, removal archive r es → Forall (within_scratch dump_args tar_args tmp dir archive) es)
    as Harchive.
  { intros ?? H. inversion H; subst;
      repeat apply Forall_cons_2; try apply Forall_nil_2; cbn; auto. }
  intros H. inversion H; subst; [apply Forall_app_2|]; eauto.
Qed.

Lemma child_within command args cwd code es :
  within_scratch dump_args tar_args tmp dir archive (EvSpawn command args cwd) →
  child command args cwd code es → Forall (within_scratch dump_args tar_args tmp dir archive) es.
Proof.
  intros Hspawn H. inversion H; subst.
  apply Forall_cons_2; [done|]. apply Forall_app_2; [by apply logs_within|].
  by apply Forall_cons_2.
Qed.

Lemma staged_within ending s :
  staged path_join os_tmpDir date mongodbConfig ending s →
  Forall (within_scratch dump_args tar_args tmp dir archive) s ∧ (length (upload_requests s) ≤ 1)%nat.
Proof.
  assert (∀ code d, dumping path_join os_tmpDir mongodbConfig code d →
            Forall (within_scratch dump_args tar_args tmp dir archive) d) as Hdump.
  { intros code d H. inversion H as [es Hes]; subst.
    apply Forall_cons_2; [done|]. apply Forall_app_2.
    - eapply child_within; [|done]. cbn. auto.
    - destruct (is_zero code); by repeat apply Forall_cons_2. }
  assert (∀ code c, compressing path_join os_tmpDir date mongodbConfig code c →
            Forall (within_scratch dump_args tar_args tmp dir archive) c) as Htar.
  { intros code c H. inversion H as [es Hes]; subst.
    apply Forall_cons_2; [done|]. apply Forall_app_2.
    - eapply child_within; [|done]. cbn. auto.
    - destruct (is_zero code); by repeat apply Forall_cons_2. }
  assert (∀ ending u, uploading ending u →
            Forall (within_scratch dump_args tar_args tmp dir archive) u ∧
            (length (upload_requests u) ≤ 1)%nat) as Hup.
  { intros e u H.
    induction H; [split; [by repeat apply Forall_cons_2|cbn; lia]..|done]. }
  intros Hs. inversion Hs as [| | |pre d c u ? Hpre Hd Hc Hu]; subst.
  - split; [by eapply cleaning_within|]. rewrite uploads_quiet by quiet. lia.
  - split; [apply Forall_app_2; eauto using cleaning_within|].
    rewrite uploads_quiet by quiet. lia.
  - split; [repeat apply Forall_app_2; eauto using cleaning_within|].
    rewrite uploads_quiet by quiet. lia.
  - destruct (Hup _ _ Hu) as [Hwithin Hone].
    split; [repeat apply Forall_app_2; eauto using cleaning_within|].
    rewrite !uploads_app.
    rewrite (uploads_quiet pre), (uploads_quiet d), (uploads_quiet c) by quiet.
    done.
Qed.

(** X14: what a job asks of the machine.  The only paths whose existence it
    checks are its dump directory and its archive in the scratch directory;
    the only command lines it hands to the shell are ['rm -rf '] followed by
    one of these two paths (what the shell removes for them is another
    matter when a path is not one plain word); the only programs it starts
    are [mongodump], told to write under the scratch directory, and [tar],
    run in the scratch directory to pack the directory named after the
    database into the archive; and it asks for one upload at most. *)
Theorem sync_keeps_to_its_scratch w :
  Forall (within_scratch dump_args tar_args tmp dir archive) (events env the_job w) ∧
  (length (upload_requests (events env the_job w)) ≤ 1)%nat.
Proof.
  destruct (events_job env path_join os_tmpDir date mongodbConfig s3Config w)
    as [s err r post Hs Hpost|s fault r post Hs Hpost
       |s err fault r post r' post' Hs Hpost Hpost'];
    destruct (staged_within _ _ Hs) as [Hwithin Hone].
  - split.
    + apply Forall_app_2; [done|]. apply Forall_cons_2; [by destruct err|].
      apply Forall_app_2; [by eapply cleaning_within|by apply Forall_cons_2].
    + rewrite uploads_app.
      rewrite (uploads_quiet (_ :: _)) by quiet. lia.
  - split.
    + apply Forall_app_2; [done|].
      apply Forall_app_2; [by eapply cleaning_within|by apply Forall_cons_2].
    + rewrite uploads_app. rewrite (uploads_quiet (_ ++ _)) by quiet. lia.
  - split.
    + apply Forall_app_2; [done|]. apply Forall_cons_2; [by destruct err|].
      apply Forall_app_2; [by eapply cleaning_within|].
      do 2 (apply Forall_cons_2; [done|]).
      apply Forall_app_2; [by eapply cleaning_within|by apply Forall_cons_2].
    + rewrite uploads_app. rewrite (uploads_quiet (_ :: _)) by quiet. lia.
Qed.

End Outcome.

(** ** One call of [removeRF] *)

(** X15: [removeRF] looks whether the path exists and calls back exactly
    once.  When the path is missing it calls back with no error, having run
    nothing and logged nothing; when the path exists it logs the removal,
    runs [rm -rf] on that very path, and calls back with the outcome of [rm],
    error or not. *)
Theorem removeRF_calls_back_with_rm_error env target w :
  let asked :=
    [ EvExists target true; log_event ("Removing " +:+ target) (Some "info") ] in
  let error := exec_outcome env (trace w ++ asked) ("rm -rf " +:+ target) in
  events env (removeRF target (Some Resolve)) w
  = if bool_decide (target ∈ fs w)
    then asked ++ [EvExec ("rm -rf " +:+ target) error; EvCallback error]
    else [EvExists target false; EvCallback None].
Proof.
  cbv zeta. unfold events, removeRF. cbn [run or_noop].
  case_bool_decide; cbn [negb]; rewrite ?run_log; cbn [run trace emit];
    rewrite <-?app_assoc; cbn [app].
  - destruct (exec_outcome _ _ _); cbn [trace emit set_fs];
      rewrite <-?app_assoc; by rewrite drop_app_length.
  - by rewrite <-?app_assoc, drop_app_length.
Qed.

(** ** The further properties at work on the sample job *)

Section SampleProperties.

Import Sample.

(** An error line of the sample job. *)
Lemma sample_error_line :
  run fine None false (log "tar: write error" (Some "error") Stop) clean
  = run fine None false Stop
      (emit (EvLog "error" "[error] tar: write error") clean).
Proof.
  apply (log_records_tagged_line fine None false "tar: write error"
           (Some "error") Stop clean).
  by apply (bool_decide_unpack _).
Defined.

(** A line that ends with a line feed loses it. *)
Lemma sample_line_feed_is_dropped :
  strip_eol ("done dumping app" +:+ String LF "") = "done dumping app".
Proof.
  apply (proj1 (proj2 (proj2 (strip_eol_drops_one_terminator "done dumping app")))).
  discriminate.
Defined.

(** Two archives of the sample database made a minute apart. *)
Lemma sample_archives_differ :
  getArchiveName date "app" ≠ getArchiveName later "app".
Proof.
  apply (getArchiveName_tells_dates_apart date later "app"). discriminate.
Defined.

(** Where [tar] fails, the dump directory that [mongodump] wrote is removed
    all the same. *)
Lemma failed_compression_leaves_no_scratch :
  (dir ∉ fs (run tar_fails None false (backup mongo) stale)) ∧
  (archive ∉ fs (run tar_fails None false (backup mongo) stale)).
Proof.
  apply (sync_removes_its_scratch_files tar_fails join tmp date mongo config stale).
  - by vm_compute.
  - by vm_compute.
  - reflexivity.
Defined.

(** The upload of the sample archive, with the sample options. *)
Lemma sample_upload_forgets_destination :
  heap (run fine None false (sendToS3 join config (tmpDir join tmp) name (Some Resolve))
          clean)
  = alter delete_destination config (heap clean).
Proof.
  apply (sendToS3_uploads_once fine join config (tmpDir join tmp) name clean).
  reflexivity.
Defined.

(** The sample job that works gets as far as the upload. *)
Lemma sample_job_forgets_destination :
  heap (run fine None false (backup mongo) clean)
  = if existsb starts_upload (events fine (backup mongo) clean)
    then alter delete_destination config (heap clean)
    else heap clean.
Proof.
  apply (sync_forgets_destination_once_uploading
           fine join tmp date mongo config clean).
  reflexivity.
Defined.

(** The removals that open the sample job, a dump directory being left from
    an earlier run. *)
Lemma sample_opening_removals :
  ∃ r w1,
    run fine None false
      (series (tmpDirCleanupFns join tmp mongo name ++ []) Resolve) stale
    = match r with
      | Some e => run fine None false (Resolve (Some e)) w1
      | None => run fine None false (series [] Resolve) w1
      end ∧
    (r = None → fs w1 ⊆ fs stale ∧ (dir ∉ fs w1) ∧ (archive ∉ fs w1)).
Proof.
  apply (opening_removals_make_room fine join tmp date mongo None false []
           Resolve stale); by vm_compute.
Defined.

End SampleProperties.
